(** * Presence synchronisation core of react-miami-game

    A shallow embedding of
    - the discovery broker   (apps/game-server/src/moq-broker-party.ts),
    - the peer session hook  (apps/game-front/src/hooks/useMoQGameStream.ts),
    - the remote player view (OtherPlayers / OtherPlayer components),
    - the reconnect backoff of the relay connection
      (hang-framework-docs/connection-documentation.md),
    together with the properties the specification states about them. *)

From Stdlib Require Import ZArith QArith Qminmax Lia Lqa List.
From stdpp Require Import gmap strings list fin_maps.

Local Open Scope Z_scope.

(** ** JavaScript [Map]: keyed store that remembers insertion order *)

Module JsMap.
Section Defs.
Context {V : Type}.

Definition t := list (string * V).

Definition empty : t := [].

Fixpoint get (k : string) (m : t) : option V :=
  match m with
  | [] => None
  | (k', v) :: m' => if String.eqb k k' then Some v else get k m'
  end.

Definition has (k : string) (m : t) : bool :=
  match get k m with Some _ => true | None => false end.

(** [Map.prototype.set]: an existing key keeps its place, a new key goes
    to the end. *)
Fixpoint set (k : string) (v : V) (m : t) : t :=
  match m with
  | [] => [(k, v)]
  | (k', v') :: m' =>
      if String.eqb k k' then (k', v) :: m' else (k', v') :: set k v m'
  end.

Fixpoint delete (k : string) (m : t) : t :=
  match m with
  | [] => []
  | (k', v') :: m' =>
      if String.eqb k k' then m' else (k', v') :: delete k m'
  end.

(** [Array.from(m.values())] *)
Definition values (m : t) : list V := map snd m.

Definition size (m : t) : nat := length m.

End Defs.
Arguments t : clear implicits.
End JsMap.

(** ** Discovery broker (moq-broker-party.ts) *)

Module Broker.

(** One participant of the room. [joinedAt] and [lastSeen] hold values of
    [Date.now()], integral milliseconds. *)
Record MoQParticipant := mkParticipant {
  id : string;
  playerName : string;
  moqPath : string;
  joinedAt : Z;
  lastSeen : Z
}.

(** A WebSocket connection of the room with its [ConnectionState]:
    [participantId] is absent until [setState] stores one. *)
Record Connection := mkConnection {
  conn_id : string;
  participantId : option string
}.

(** Messages the broker handles; [Other] is any parsed message whose type
    tag is none of the four (the [default] branch). *)
Inductive BrokerMessage :=
| Join (id playerName moqPath : string)
| Leave (id : string)
| Heartbeat (id : string)
| RequestPeers (id : string)
| Other.

(** The [broker_update] message sent to clients. *)
Record BrokerUpdate := mkUpdate {
  upd_participants : list MoQParticipant;
  totalConnections : nat;
  activeCount : nat
}.

(** [connection.send(JSON.stringify(update))]: destination and payload. *)
Definition Send : Type := string * BrokerUpdate.

(** The party: its [participants] map and the connections
    [room.getConnections()] enumerates. *)
Record Server := mkServer {
  participants : JsMap.t MoQParticipant;
  connections : list Connection
}.

Definition init : Server := mkServer JsMap.empty [].

Definition mkBrokerUpdate (s : Server) : BrokerUpdate :=
  {| upd_participants := JsMap.values (participants s);
     totalConnections := length (connections s);
     activeCount := JsMap.size (participants s) |}.

Definition sendBrokerUpdate (s : Server) (connection : string) : list Send :=
  [(connection, mkBrokerUpdate s)].

Definition broadcastUpdate (s : Server) : list Send :=
  let message := mkBrokerUpdate s in
  map (fun c => (conn_id c, message)) (connections s).

(** [connection.setState({ participantId })] *)
Definition setState (connection pid : string) (cs : list Connection)
  : list Connection :=
  map (fun c => if String.eqb (conn_id c) connection
                then mkConnection (conn_id c) (Some pid) else c) cs.

Definition handleJoin (now : Z) (mid mname mpath : string)
    (connection : string) (s : Server) : Server * list Send :=
  let participant :=
    {| id := mid; playerName := mname; moqPath := mpath;
       joinedAt := now; lastSeen := now |} in
  let s' :=
    {| participants := JsMap.set mid participant (participants s);
       connections := setState connection mid (connections s) |} in
  (s', broadcastUpdate s').

Definition handleLeave (pid : string) (s : Server) : Server * list Send :=
  match JsMap.get pid (participants s) with
  | Some _ =>
      let s' := {| participants := JsMap.delete pid (participants s);
                   connections := connections s |} in
      (s', broadcastUpdate s')
  | None => (s, [])
  end.

Definition handleHeartbeat (now : Z) (pid : string) (s : Server)
  : Server * list Send :=
  match JsMap.get pid (participants s) with
  | Some p =>
      let p' := {| id := id p; playerName := playerName p;
                   moqPath := moqPath p; joinedAt := joinedAt p;
                   lastSeen := now |} in
      ({| participants := JsMap.set pid p' (participants s);
          connections := connections s |}, [])
  | None => (s, [])
  end.

(** The room accepts the socket, then [onConnect] runs. *)
Definition onConnect (connection : string) (s : Server)
  : Server * list Send :=
  let s' := {| participants := participants s;
               connections :=
                 connections s ++ [mkConnection connection None] |} in
  (s', sendBrokerUpdate s' connection).

(** [msg = None] stands for a payload on which [JSON.parse] throws. *)
Definition onMessage (now : Z) (msg : option BrokerMessage)
    (sender : string) (s : Server) : Server * list Send :=
  match msg with
  | Some (Join mid mname mpath) => handleJoin now mid mname mpath sender s
  | Some (Leave pid) => handleLeave pid s
  | Some (Heartbeat pid) => handleHeartbeat now pid s
  | Some (RequestPeers _) => (s, sendBrokerUpdate s sender)
  | Some Other => (s, [])
  | None => (s, [])
  end.

Definition stateOf (connection : string) (s : Server) : option string :=
  match find (fun c => String.eqb (conn_id c) connection) (connections s) with
  | Some c => participantId c
  | None => None
  end.

(** The socket has left the room when [onClose] runs. *)
Definition onClose (connection : string) (s : Server)
  : Server * list Send :=
  let s' := {| participants := participants s;
               connections :=
                 List.filter (fun c => negb (String.eqb (conn_id c) connection))
                        (connections s) |} in
  match stateOf connection s with
  | Some pid => handleLeave pid s'
  | None => (s', [])
  end.

Inductive Event :=
| EConnect (connection : string)
| EMessage (now : Z) (msg : option BrokerMessage) (sender : string)
| EClose (connection : string).

Definition step (s : Server) (e : Event) : Server * list Send :=
  match e with
  | EConnect c => onConnect c s
  | EMessage now msg sender => onMessage now msg sender s
  | EClose c => onClose c s
  end.

(** A whole session: the final state and everything sent, in order. *)
Fixpoint run (s : Server) (es : list Event) : Server * list Send :=
  match es with
  | [] => (s, [])
  | e :: es' =>
      let '(s1, out1) := step s e in
      let '(s2, out2) := run s1 es' in
      (s2, out1 ++ out2)
  end.

(** The ids listed in a registry view. *)
Definition ids (u : BrokerUpdate) : list string :=
  map id (upd_participants u).

End Broker.

(** ** Presence payload (game-schemas [PresenceType]) *)

Module Schema.

Record Vector2 := mkVec2 { x2 : Q; y2 : Q }.
Record Vector3 := mkVec3 { x : Q; y : Q; z : Q }.
Record Quaternion := mkQuat { qx : Q; qy : Q; qz : Q; qw : Q }.

(** JavaScript numbers are taken as exact rationals. *)
Record PresenceType := mkPresence {
  name : string;
  pos : Vector3;
  rot : Quaternion;
  wheel : Vector2;
  vel : Vector3;
  timestamp : Q
}.

End Schema.

(** ** Peer session hook (useMoQGameStream.ts) *)

Module PeerSession.
Import Broker.

(** The hook's arguments that the modelled callbacks close over. *)
Record Hook := mkHook { roomId : string; playerId : string }.

(** [`game/${roomId}/${playerId}`] *)
Definition ourPath (h : Hook) : string :=
  String.append "game/" (String.append (roomId h)
    (String.append "/" (playerId h))).

(** A pending [setTimeout] callback of [createWatchBroadcast]: it will call
    [createWatchBroadcast(participant, retryCount + 1)]. *)
Record Timer := mkTimer {
  delay : Z;
  t_participant : MoQParticipant;
  t_retryCount : nat
}.

(** What the hook does that can be observed from outside, in order. *)
Inductive Log :=
| NewWatchBroadcast (pid : string) (retryCount : nat)
| WarnSelfWatch (pname : string)
| LogCreated (pname : string)
| ErrorFailed (pname : string)
| SetTimeout (ms : Z)
| LogRetrying (pname : string) (attempt : nat)
| ErrorGaveUp (pname : string)
| BroadcastClose (pid : string)
| OnParticipantJoin (pid : string)
| OnParticipantLeave (pid : string).

(** How one run of the [try] block of [createWatchBroadcast] ends: the path
    constructor throws, the subscription throws once [new Watch.Broadcast]
    has been built, or everything succeeds. The block is taken as one
    step. *)
Inductive Outcome := PathThrows | WatchThrows | Opened.

Definition fails (o : Outcome) : bool :=
  match o with Opened => false | _ => true end.

(** The refs of the hook. A [Watch.Broadcast] is represented by the path it
    subscribes to. *)
Record State := mkState {
  moqConnection : bool;
  isMoQReady : bool;
  remoteBroadcasts : gmap string string;
  remoteStates : gmap string Schema.PresenceType;
  participantsRef : list MoQParticipant;
  prevParticipants : list string;
  timers : list Timer;
  log : list Log
}.

Definition init : State :=
  mkState false false ∅ ∅ [] [] [] [].

Definition emit (e : Log) (st : State) : State :=
  mkState (moqConnection st) (isMoQReady st) (remoteBroadcasts st)
    (remoteStates st) (participantsRef st) (prevParticipants st)
    (timers st) (log st ++ [e]).

Definition setTimeout (t : Timer) (st : State) : State :=
  mkState (moqConnection st) (isMoQReady st) (remoteBroadcasts st)
    (remoteStates st) (participantsRef st) (prevParticipants st)
    (timers st ++ [t]) (log st ++ [SetTimeout (delay t)]).

Definition setBroadcasts (bs : gmap string string)
    (rs : gmap string Schema.PresenceType) (st : State) : State :=
  mkState (moqConnection st) (isMoQReady st) bs rs
    (participantsRef st) (prevParticipants st) (timers st) (log st).

(** The [catch] block: log, then retry later or give up. *)
Definition onCreateError (participant : MoQParticipant) (retryCount : nat)
    (st : State) : State :=
  let st1 := emit (ErrorFailed (playerName participant)) st in
  if (retryCount <? 3)%nat
  then setTimeout (mkTimer (1000 * (Z.of_nat retryCount + 1))
                           participant retryCount) st1
  else emit (ErrorGaveUp (playerName participant)) st1.

Definition createWatchBroadcast (h : Hook) (participant : MoQParticipant)
    (retryCount : nat) (o : Outcome) (st : State) : State :=
  if negb (moqConnection st) then st
  else if String.eqb (id participant) (playerId h) then st
  else
    match o with
    | PathThrows => onCreateError participant retryCount st
    | _ =>
        if String.eqb (moqPath participant) (ourPath h)
        then emit (WarnSelfWatch (playerName participant)) st
        else
          let st1 := emit (NewWatchBroadcast (id participant) retryCount) st in
          match o with
          | Opened =>
              let bs :=
                match remoteBroadcasts st1 !! id participant with
                | Some _ => remoteBroadcasts st1
                | None => <[id participant := moqPath participant]>
                            (remoteBroadcasts st1)
                end in
              emit (LogCreated (playerName participant))
                   (setBroadcasts bs (remoteStates st1) st1)
          | _ => onCreateError participant retryCount st1
          end
    end.

(** The [k]-th pending timer expires and its callback runs. *)
Definition fireTimer (h : Hook) (k : nat) (o : Outcome) (st : State)
  : State :=
  match timers st !! k with
  | None => st
  | Some t =>
      let st1 :=
        mkState (moqConnection st) (isMoQReady st) (remoteBroadcasts st)
          (remoteStates st) (participantsRef st) (prevParticipants st)
          (take k (timers st) ++ drop (S k) (timers st)) (log st) in
      let st2 :=
        emit (LogRetrying (playerName (t_participant t))
                          (t_retryCount t + 1)) st1 in
      createWatchBroadcast h (t_participant t) (t_retryCount t + 1) o st2
  end.

Definition cleanupWatchBroadcast (pid : string) (st : State) : State :=
  match remoteBroadcasts st !! pid with
  | Some _ =>
      setBroadcasts (delete pid (remoteBroadcasts st))
                    (delete pid (remoteStates st))
                    (emit (BroadcastClose pid) st)
  | None => st
  end.

(** [new Set(xs)]: first occurrences, in order. *)
Fixpoint setAdd (x : string) (s : list string) : list string :=
  match s with
  | [] => [x]
  | y :: s' => if String.eqb x y then s else y :: setAdd x s'
  end.

Definition setFrom (xs : list string) : list string :=
  fold_left (fun s x => setAdd x s) xs [].

Definition setHas (x : string) (s : list string) : bool :=
  existsb (String.eqb x) s.

(** [data.participants.filter(p => p.id !== playerId)] *)
Definition otherParticipants (h : Hook) (data : BrokerUpdate)
  : list MoQParticipant :=
  List.filter (fun p => negb (String.eqb (id p) (playerId h)))
         (upd_participants data).

(** The socket's [onMessage] for a [broker_update]; [oracle] tells how the
    subscription attempt for each new participant ends. *)
Definition onMessage (h : Hook) (oracle : MoQParticipant -> Outcome)
    (data : BrokerUpdate) (st : State) : State :=
  let others := otherParticipants h data in
  let prev := prevParticipants st in
  let st1 :=
    mkState (moqConnection st) (isMoQReady st) (remoteBroadcasts st)
      (remoteStates st) others prev (timers st) (log st) in
  let currentIds := setFrom (map id others) in
  let st2 :=
    fold_left
      (fun s participant =>
         if setHas (id participant) prev then s
         else
           let s1 := emit (OnParticipantJoin (id participant)) s in
           if moqConnection s1 && isMoQReady s1
           then createWatchBroadcast h participant 0 (oracle participant) s1
           else s1)
      others st1 in
  let st3 :=
    fold_left
      (fun s prevId =>
         if setHas prevId currentIds then s
         else cleanupWatchBroadcast prevId
                (emit (OnParticipantLeave prevId) s))
      prev st2 in
  mkState (moqConnection st3) (isMoQReady st3) (remoteBroadcasts st3)
    (remoteStates st3) (participantsRef st3) currentIds
    (timers st3) (log st3).

(** The oldest pending timer fires, once per given outcome, for as long as
    one is pending. *)
Fixpoint drain (h : Hook) (os : list Outcome) (st : State) : State :=
  match os with
  | [] => st
  | o :: os' =>
      match timers st with
      | [] => st
      | _ :: _ => drain h os' (fireTimer h 0 o st)
      end
  end.

(** The delays handed to [setTimeout], in order. *)
Fixpoint waits (l : list Log) : list Z :=
  match l with
  | [] => []
  | SetTimeout ms :: l' => ms :: waits l'
  | _ :: l' => waits l'
  end.

(** The subscription attempts made for participant [pid], in order. *)
Fixpoint attempts (pid : string) (l : list Log) : list nat :=
  match l with
  | [] => []
  | NewWatchBroadcast p n :: l' =>
      if String.eqb p pid then n :: attempts pid l' else attempts pid l'
  | _ :: l' => attempts pid l'
  end.

(** The pending retries that belong to participant [pid]. *)
Definition pendingFor (pid : string) (st : State) : list Timer :=
  List.filter (fun t => String.eqb (id (t_participant t)) pid) (timers st).

(** The delay of the retry scheduled when attempt [retryCount] fails. *)
Definition retryDelay (retryCount : nat) : Z :=
  1000 * (Z.of_nat retryCount + 1).

(** A list of delays in which each one is twice the one before. *)
Definition doubling (l : list Z) : Prop :=
  forall k a b, l !! k = Some a -> l !! S k = Some b -> b = 2 * a.

End PeerSession.

(** ** Remote player list and presence store (OtherPlayers component) *)

Module OtherPlayers.
Section Store.

(** Field values of a presence object; the handler never inspects them. *)
Context {V : Type}.

(** A presence object, possibly partial: field name to value. *)
Local Abbreviation Presence := (gmap string V).

Inductive ServerMessage :=
| PullServerPresence (users : gmap string Presence)
| SyncPresence (users : gmap string Presence)
| PlayerAdded (pid : string) (presence : Presence)
| PlayerRemoved (pid : string).

(** [useServerStatus] ([playerIds]) and the module-level [presenceRef]. *)
Record Store := mkStore {
  playerIds : list string;
  presenceRef : gmap string Presence
}.

(** [{ ...currentP, ...presence }]: a field of [presence] wins. *)
Definition spread (currentP presence : Presence) : Presence :=
  presence ∪ currentP.

(** [presenceRef.current[id] || {}] *)
Definition currentOrEmpty (ref : gmap string Presence) (pid : string)
  : Presence :=
  match ref !! pid with Some p => p | None => ∅ end.

(** The body of the [forEach] of the sync-presence case. *)
Definition mergeOne (pid : string) (presence : Presence)
    (ref : gmap string Presence) : gmap string Presence :=
  <[pid := spread (currentOrEmpty ref pid) presence]> ref.

Definition messageHandler (selfId : string) (message : ServerMessage)
    (s : Store) : Store :=
  match message with
  | PullServerPresence users =>
      let allUsers := delete selfId users in
      {| playerIds := (map_to_list allUsers).*1;
         presenceRef :=
           map_fold (fun pid presence ref => <[pid := presence]> ref)
                    (presenceRef s) allUsers |}
  | SyncPresence users =>
      let usersToUpdate := delete selfId users in
      {| playerIds := playerIds s;
         presenceRef := map_fold mergeOne (presenceRef s) usersToUpdate |}
  | PlayerAdded pid presence =>
      if String.eqb pid selfId then s
      else
        {| playerIds :=
             if existsb (String.eqb pid) (playerIds s)
             then playerIds s else playerIds s ++ [pid];
           presenceRef := <[pid := presence]> (presenceRef s) |}
  | PlayerRemoved pid =>
      {| playerIds :=
           List.filter (fun i => negb (String.eqb i pid)) (playerIds s);
         presenceRef := delete pid (presenceRef s) |}
  end.

End Store.

(** The rendered children: [Some id] for an [<OtherPlayer id />] element,
    [None] for [null]. [MAX_VEHICLE_INSTANCES] is a constant of
    ./vehicle/body. *)
Definition render (MAX_VEHICLE_INSTANCES : Z) (playerIds : list string)
  : list (option string) :=
  imap (fun i pid =>
          if Z.of_nat i <? MAX_VEHICLE_INSTANCES - 3 then Some pid else None)
       playerIds.

(** The players for which a component is instantiated. *)
Definition instantiated (MAX_VEHICLE_INSTANCES : Z) (playerIds : list string)
  : list string :=
  omap (fun o => o) (render MAX_VEHICLE_INSTANCES playerIds).

End OtherPlayers.

(** ** Dead reckoning of one remote player (OtherPlayer component) *)

Module OtherPlayer.
Import Schema.
Local Open Scope Q_scope.

Record CarVectors := mkCarVectors {
  originTimestamp : Q;
  positionCurrent : Vector3;
  velocity : Vector3;
  deltaVelocity : Vector3;
  wheelRotation : Q;
  visibleSteering : Q
}.

(** The [THREE.Group] behind [playerRef]. *)
Record Group := mkGroup {
  position : Vector3;
  quaternion : Quaternion
}.

Record Entry := mkEntry {
  carVectors : CarVectors;
  playerRef : option Group
}.

Definition zero3 : Vector3 := mkVec3 0 0 0.

(** The [useMemo] initial value and a freshly mounted group. *)
Definition initCarVectors : CarVectors :=
  mkCarVectors 0 zero3 zero3 zero3 0 0.

Definition initGroup : Group := mkGroup zero3 (mkQuat 0 0 0 1).

Definition init : Entry := mkEntry initCarVectors (Some initGroup).

(** three.js [Vector3] arithmetic *)
Definition multiplyScalar (v : Vector3) (s : Q) : Vector3 :=
  mkVec3 (x v * s) (y v * s) (z v * s).

Definition add (a v : Vector3) : Vector3 :=
  mkVec3 (x a + x v) (y a + y v) (z a + z v).

Definition lerp (a v : Vector3) (alpha : Q) : Vector3 :=
  mkVec3 (x a + (x v - x a) * alpha)
         (y a + (y v - y a) * alpha)
         (z a + (z v - z a) * alpha).

(** Lines 178-182: take the sample as the new waypoint when its timestamp
    is not the stored one. *)
Definition ingest (presence : PresenceType) (cv : CarVectors) : CarVectors :=
  if negb (Qeq_bool (originTimestamp cv) (timestamp presence))
  then mkCarVectors (timestamp presence) (pos presence) (vel presence)
         (deltaVelocity cv) (wheelRotation cv) (visibleSteering cv)
  else cv.

(** Lines 184-186: advance the waypoint by velocity times elapsed time. *)
Definition extrapolate (delta : Q) (cv : CarVectors) : CarVectors :=
  let dv := multiplyScalar (velocity cv) delta in
  mkCarVectors (originTimestamp cv) (add (positionCurrent cv) dv)
    (velocity cv) dv (wheelRotation cv) (visibleSteering cv).

(** The [useFrame] callback; [delta] is in seconds. *)
Definition useFrame (presence : option PresenceType) (delta : Q)
    (e : Entry) : Entry :=
  match presence with
  | None => e
  | Some presence =>
      match playerRef e with
      | None => e
      | Some g =>
          let cv := extrapolate delta (ingest presence (carVectors e)) in
          let g' :=
            mkGroup (lerp (position g) (positionCurrent cv)
                          (Qmin (delta * 10) 1))
                    (rot presence) in
          mkEntry
            (mkCarVectors (originTimestamp cv) (positionCurrent cv)
               (velocity cv) (deltaVelocity cv)
               (x2 (wheel presence)) (y2 (wheel presence)))
            (Some g')
      end
  end.

(** What happens to one remote player: a sample is stored under its id in
    [presenceRef], or a frame is rendered. *)
Inductive Event :=
| Deliver (presence : PresenceType)
| Frame (delta : Q).

Definition isFrame (ev : Event) : bool :=
  match ev with Frame _ => true | Deliver _ => false end.

(** The rendered position after each frame, in order. [cell] is the
    player's slot of [presenceRef]. *)
Fixpoint trajectory (cell : option PresenceType) (e : Entry)
    (evs : list Event) : list (option Vector3) :=
  match evs with
  | [] => []
  | Deliver presence :: evs' => trajectory (Some presence) e evs'
  | Frame delta :: evs' =>
      let e' := useFrame cell delta e in
      (position <$> playerRef e') :: trajectory cell e' evs'
  end.

(** The entry after a run of frames against one stored sample. *)
Definition frames (presence : PresenceType) (deltas : list Q) (e : Entry)
  : Entry :=
  fold_left (fun e delta => useFrame (Some presence) delta e) deltas e.

(** The queried x-coordinate. *)
Definition queryX (e : Entry) : option Q :=
  (fun g => x (position g)) <$> playerRef e.

Definition sumQ (l : list Q) : Q := fold_right Qplus 0 l.

(** The entry follows sample [s] along x: [s] is the waypoint, the
    waypoint moves at 1 m/s and has reached [T], and the rendered x lags
    behind it. *)
Definition tracking (s : PresenceType) (e : Entry) (T : Q) : Prop :=
  exists g, playerRef e = Some g
    /\ originTimestamp (carVectors e) == timestamp s
    /\ x (velocity (carVectors e)) == 1
    /\ x (positionCurrent (carVectors e)) == T
    /\ 0 < x (position g) /\ x (position g) < T.

End OtherPlayer.

(** ** Reconnect backoff of the relay connection *)

Module Connection.

Record ConnectionProps := mkProps {
  delay : Z;
  maxDelay : Z
}.

(** The documented defaults: 1000 ms, capped at 30000 ms. *)
Definition defaults : ConnectionProps := mkProps 1000 30000.

Inductive ConnectionStatus :=
| connecting | connected | disconnected | unsupported.

(** The status signal and the private [#delay]. *)
Record State := mkState {
  status : ConnectionStatus;
  currentDelay : Z
}.

Definition create (p : ConnectionProps) : State :=
  mkState disconnected (delay p).

(** Modelled from the spec: connection.ts of @kixelated/hang is not among
    the sources, only its documentation is. On a failed or lost connection
    the backoff becomes [Math.min(#delay * 2, maxDelay)]. *)
Definition onFailure (p : ConnectionProps) (s : State) : State :=
  mkState disconnected (Z.min (currentDelay s * 2) (maxDelay p)).

(** Modelled from the spec: connection.ts of @kixelated/hang is not among
    the sources, only its documentation is. A successful connection sets
    [#delay] back to the initial [delay]. *)
Definition onSuccess (p : ConnectionProps) (s : State) : State :=
  mkState connected (delay p).

(** [n] failures in a row. *)
Fixpoint failures (p : ConnectionProps) (n : nat) (s : State) : State :=
  match n with
  | O => s
  | S n' => onFailure p (failures p n' s)
  end.

End Connection.

(** ** The peer session hook as a whole *)

Module PeerOps.
Import Broker PeerSession.

(** [moqConnectionRef.current] and the [isMoQReady] state, as [initMoQ]
    sets them. *)
Definition setFlags (connection ready : bool) (st : State) : State :=
  mkState connection ready (remoteBroadcasts st) (remoteStates st)
    (participantsRef st) (prevParticipants st) (timers st) (log st).

(** A chat payload as the subscription callback sees it: [undefined] or
    the empty string, text on which [JSON.parse] throws, or a game
    state. *)
Inductive Payload :=
| NoData
| Unparsable
| GameState (gameState : Schema.PresenceType).

(** The callback given to [watchBroadcast.chat.message.subscribe] for
    participant [pid]: a parsed state replaces the stored one. *)
Definition onChatMessage (pid : string) (data : Payload) (st : State)
  : State :=
  match data with
  | GameState gameState =>
      setBroadcasts (remoteBroadcasts st)
                    (<[pid := gameState]> (remoteStates st)) st
  | _ => st
  end.

(** Everything that drives the hook. *)
Inductive Op :=
| OpFlags (connection ready : bool)
| OpBroker (oracle : MoQParticipant -> Outcome) (data : BrokerUpdate)
| OpTimer (k : nat) (o : Outcome)
| OpChat (pid : string) (data : Payload).

Definition apply (h : Hook) (st : State) (op : Op) : State :=
  match op with
  | OpFlags c r => setFlags c r st
  | OpBroker oracle data => onMessage h oracle data st
  | OpTimer k o => fireTimer h k o st
  | OpChat pid data => onChatMessage pid data st
  end.

Definition runOps (h : Hook) (ops : list Op) : State :=
  fold_left (apply h) ops init.

(** A pending retry is one of the three the hook allows, waits as long as
    its number says, and is not for the local player. *)
Definition timer_ok (h : Hook) (t : Timer) : Prop :=
  (t_retryCount t < 3)%nat
  /\ delay t = retryDelay (t_retryCount t)
  /\ id (t_participant t) <> playerId h.

(** A subscription attempt is for another player and is the first one or
    one of the three retries; a retry waits 1, 2 or 3 seconds. *)
Definition entry_ok (h : Hook) (e : Log) : Prop :=
  match e with
  | NewWatchBroadcast pid n => pid <> playerId h /\ (n <= 3)%nat
  | SetTimeout ms => ms = 1000 \/ ms = 2000 \/ ms = 3000
  | _ => True
  end.

Definition session_ok (h : Hook) (st : State) : Prop :=
  Forall (timer_ok h) (timers st)
  /\ Forall (entry_ok h) (log st)
  /\ map_Forall (fun pid path => pid <> playerId h /\ path <> ourPath h)
                (remoteBroadcasts st)
  /\ Forall (fun p => id p <> playerId h) (participantsRef st)
  /\ ~ In (playerId h) (prevParticipants st).

End PeerOps.

(** ** The presence store over a session *)

Module PresenceOps.
Section Ops.
Context {V : Type}.

(** The MoQ effect of [OtherPlayers], which runs once the stream is ready
    and on every incoming state: every remote state is copied into
    [presenceRef] and the player list becomes the keys of
    [remoteStates]. *)
Definition syncMoQ (remoteStates : gmap string (gmap string V))
    (s : @OtherPlayers.Store V) : @OtherPlayers.Store V :=
  {| OtherPlayers.playerIds := (map_to_list remoteStates).*1;
     OtherPlayers.presenceRef :=
       map_fold (fun pid presence ref => <[pid := presence]> ref)
                (OtherPlayers.presenceRef s) remoteStates |}.

(** The store at mount time. *)
Definition emptyStore : @OtherPlayers.Store V := OtherPlayers.mkStore [] ∅.

(** The socket messages of a session, handled in order. *)
Definition runMessages (selfId : string)
    (messages : list (@OtherPlayers.ServerMessage V))
    (s : @OtherPlayers.Store V) : @OtherPlayers.Store V :=
  fold_left (fun s m => OtherPlayers.messageHandler selfId m s) messages s.

(** The player list has no duplicates and not the local player, nothing
    is stored for the local player, and every listed player has a stored
    presence. *)
Definition store_ok (selfId : string) (s : @OtherPlayers.Store V) : Prop :=
  NoDup (OtherPlayers.playerIds s)
  /\ (selfId ∉ OtherPlayers.playerIds s)
  /\ OtherPlayers.presenceRef s !! selfId = None
  /\ Forall (fun pid => is_Some (OtherPlayers.presenceRef s !! pid))
            (OtherPlayers.playerIds s).

End Ops.
End PresenceOps.

(** ** Comparing positions *)

Module Reckoning.
Import Schema.
Local Open Scope Q_scope.



(** The same point, coordinates compared as numbers. *)
Definition eq3 (a b : Vector3) : Prop :=
  x a == x b /\ y a == y b /\ z a == z b.


(** The entry still has the initial timestamp and rests at the origin. *)
Definition parked (e : OtherPlayer.Entry) : Prop :=
  OtherPlayer.originTimestamp (OtherPlayer.carVectors e) == 0
  /\ OtherPlayer.velocity (OtherPlayer.carVectors e) = OtherPlayer.zero3
  /\ eq3 (OtherPlayer.positionCurrent (OtherPlayer.carVectors e))
         OtherPlayer.zero3
  /\ exists g, OtherPlayer.playerRef e = Some g
       /\ eq3 (OtherPlayer.position g) OtherPlayer.zero3.

End Reckoning.

(** ** Debug overlay (moq-debug-overlay.tsx) *)

Module DebugOverlay.

(** [MAX_LOG_ENTRIES] of the 2D overlay and of the in-scene overlay. *)
Definition MAX_LOG_ENTRIES : nat := 20.
Definition MAX_LOG_ENTRIES_3D : nat := 10.

Section Logs.
Context {D : Type}.

(** One logged message. [id] is the counter value behind the key
    [`out-${n}`] or [`in-${n}`]; [size] is the length of the serialised
    data. *)
Record LogEntry := mkLogEntry {
  id : nat;
  timestamp : Z;
  data : D;
  size : nat
}.

(** One direction of the overlay: the list shown and its counter ref. *)
Record Buffer := mkBuffer {
  logs : list LogEntry;
  countRef : nat
}.

Definition emptyBuffer : Buffer := mkBuffer [] 0.

(** A debug event: the time it is logged at, its data and the length of
    [JSON.stringify(data)]. *)
Definition DebugEvent : Type := Z * D * nat.

(** [prev => [entry, ...prev].slice(0, max)] with a fresh id. *)
Definition onDebugEvent (max : nat) (b : Buffer) (ev : DebugEvent)
  : Buffer :=
  let '(now, d, sz) := ev in
  let entry := mkLogEntry (countRef b) now d sz in
  mkBuffer (take max (entry :: logs b)) (S (countRef b)).

Definition runDebug (max : nat) (evs : list DebugEvent) : Buffer :=
  fold_left (onDebugEvent max) evs emptyBuffer.

End Logs.
End DebugOverlay.

(** ** Invariants and whole sessions *)

Module Invariant.

(** The registry is keyed by participant id, each id once. *)
Definition registry_ok (m : JsMap.t Broker.MoQParticipant) : Prop :=
  List.NoDup (map fst m)
  /\ Forall (fun kp => Broker.id (snd kp) = fst kp) m.

(** The server state reached by a session. *)
Definition after (es : list Broker.Event) : Broker.Server :=
  fst (Broker.run Broker.init es).

End Invariant.

(** ** Concrete sessions used as examples *)

Module Scenario.

(** A socket connects and joins as p1. *)
Definition p1_joins : list Broker.Event :=
  [Broker.EConnect "c1"%string;
   Broker.EMessage 1000 (Some (Broker.Join "p1" "Ann" "game/r/p1"))
     "c1"%string].

(** The local player p1 in room r, and a remote player p2. *)
Definition me : PeerSession.Hook := PeerSession.mkHook "r" "p1".

Definition ann : Broker.MoQParticipant :=
  Broker.mkParticipant "p1" "Ann" "game/r/p1" 1000 1000.

Definition bob : Broker.MoQParticipant :=
  Broker.mkParticipant "p2" "Bob" "game/r/p2" 2000 2000.

(** The hook once the relay connection is up. *)
Definition ready : PeerSession.State :=
  PeerSession.mkState true true ∅ ∅ [] [] [] [].

(** Every subscription attempt for p2 fails, until nothing is pending. *)
Definition bob_unreachable : PeerSession.State :=
  PeerSession.drain me
    [PeerSession.WatchThrows; PeerSession.WatchThrows;
     PeerSession.WatchThrows; PeerSession.WatchThrows]
    (PeerSession.createWatchBroadcast me bob 0 PeerSession.WatchThrows ready).

(** The broker announces p2, whose subscription fails to open, and then
    announces that p2 is gone. *)
Definition bob_announced : PeerSession.State :=
  PeerSession.onMessage me (fun _ => PeerSession.WatchThrows)
    (Broker.mkUpdate [ann; bob] 2 2) ready.

Definition bob_removed : PeerSession.State :=
  PeerSession.onMessage me (fun _ => PeerSession.WatchThrows)
    (Broker.mkUpdate [ann] 1 1) bob_announced.

(** The retry timer that was pending at the removal expires. *)
Definition bob_retried : PeerSession.State :=
  PeerSession.fireTimer me 0 PeerSession.WatchThrows bob_removed.

End Scenario.

(** * Properties *)

(** ** Facts about [JsMap] *)

Lemma JsMap_get_set_eq {V} (k : string) (v : V) (m : JsMap.t V) :
  JsMap.get k (JsMap.set k v m) = Some v.
Proof.
  induction m as [|[k' v'] m IH]; simpl.
  - now rewrite String.eqb_refl.
  - destruct (String.eqb k k') eqn:E; simpl; rewrite E; auto.
Qed.

Lemma JsMap_get_set_ne {V} (k k' : string) (v : V) (m : JsMap.t V) :
  k <> k' -> JsMap.get k' (JsMap.set k v m) = JsMap.get k' m.
Proof.
  intros Hne. induction m as [|[k0 v0] m IH]; simpl.
  - destruct (String.eqb k' k) eqn:E; auto.
    apply String.eqb_eq in E. congruence.
  - destruct (String.eqb k k0) eqn:E; simpl.
    + apply String.eqb_eq in E. subst k0.
      destruct (String.eqb k' k) eqn:E'; auto.
      apply String.eqb_eq in E'. congruence.
    + now rewrite IH.
Qed.

Lemma JsMap_get_Some_In {V} (k : string) (v : V) (m : JsMap.t V) :
  JsMap.get k m = Some v -> In v (JsMap.values m).
Proof.
  induction m as [|[k' v'] m IH]; simpl; [discriminate|].
  destruct (String.eqb k k'); [intros [= ->]; now left | auto].
Qed.

(** ** Discovery broker *)

Section BrokerFacts.
Import Broker.

Lemma sendBrokerUpdate_inv s c c' u :
  In (c', u) (sendBrokerUpdate s c) -> u = mkBrokerUpdate s.
Proof. intros [[= <- <-]|[]]. reflexivity. Qed.

Lemma broadcastUpdate_inv s c u :
  In (c, u) (broadcastUpdate s) -> u = mkBrokerUpdate s.
Proof.
  unfold broadcastUpdate. intros H.
  apply in_map_iff in H as (c0 & [= <- <-] & _). reflexivity.
Qed.

Lemma handleLeave_sends pid s c u :
  In (c, u) (snd (handleLeave pid s)) ->
  u = mkBrokerUpdate (fst (handleLeave pid s)).
Proof.
  unfold handleLeave. destruct (JsMap.get pid (participants s)); simpl.
  - apply broadcastUpdate_inv.
  - intros [].
Qed.

(** Whatever the event, every message the broker sends carries the whole
    registry as it stands after the event. *)
Lemma step_sends_registry s e c u :
  In (c, u) (snd (step s e)) -> u = mkBrokerUpdate (fst (step s e)).
Proof.
  destruct e as [c0|now [[mid mname mpath|pid|pid|pid|]|] sender|c0]; simpl.
  - apply sendBrokerUpdate_inv.
  - apply broadcastUpdate_inv.
  - apply handleLeave_sends.
  - unfold handleHeartbeat.
    destruct (JsMap.get pid (participants s)); simpl; intros [].
  - apply sendBrokerUpdate_inv.
  - intros [].
  - intros [].
  - unfold onClose. destruct (stateOf c0 s); simpl.
    + apply handleLeave_sends.
    + intros [].
Qed.

Lemma setState_conn_ids c pid cs :
  map conn_id (setState c pid cs) = map conn_id cs.
Proof.
  unfold setState. rewrite map_map. apply map_ext.
  intros a. destruct (String.eqb (conn_id a) c); reflexivity.
Qed.

End BrokerFacts.

Lemma otherParticipants_spec (h : PeerSession.Hook) (u : Broker.BrokerUpdate)
    (p : Broker.MoQParticipant) :
  In p (PeerSession.otherParticipants h u) <->
  In p (Broker.upd_participants u) /\ Broker.id p <> PeerSession.playerId h.
Proof.
  unfold PeerSession.otherParticipants. rewrite filter_In.
  rewrite negb_true_iff, String.eqb_neq. reflexivity.
Qed.

(** C1, as stated, fails: the broadcast that follows p1's join is sent to
    p1's own connection and lists p1. *)
Lemma C1_broker_lists_requester :
  let s := fst (Broker.run Broker.init Scenario.p1_joins) in
  let out := snd (Broker.run Broker.init Scenario.p1_joins) in
  exists u,
    nth_error out 1 = Some ("c1"%string, u) /\
    Broker.stateOf "c1" s = Some "p1"%string /\
    In "p1"%string (Broker.ids u).
Proof.
  eexists. split; [reflexivity|]. split; [reflexivity|]. simpl. now left.
Qed.

(** C1, amended: every registry view the broker sends (snapshot on connect,
    reply to request_peers, membership broadcast) is the whole registry,
    unfiltered; the receiving client drops its own id, so the list it
    derives from any view holds exactly the other participants. *)
Theorem C1_views_unfiltered_client_filters
    (s : Broker.Server) (e : Broker.Event) (c : string)
    (u : Broker.BrokerUpdate) :
  In (c, u) (snd (Broker.step s e)) ->
  Broker.upd_participants u
    = JsMap.values (Broker.participants (fst (Broker.step s e)))
  /\ forall h : PeerSession.Hook,
       ~ In (PeerSession.playerId h)
            (map Broker.id (PeerSession.otherParticipants h u))
       /\ forall p, In p (PeerSession.otherParticipants h u) <->
                    In p (Broker.upd_participants u)
                    /\ Broker.id p <> PeerSession.playerId h.
Proof.
  intros Hin. apply step_sends_registry in Hin. subst u.
  split; [reflexivity|]. intros h. split.
  - rewrite in_map_iff. intros (p & Hid & Hp).
    apply otherParticipants_spec in Hp as [_ Hne]. congruence.
  - intros p. apply otherParticipants_spec.
Qed.

Lemma C1_views_unfiltered_client_filters_witness :
  let u := Broker.mkUpdate
             [Broker.mkParticipant "p1" "Ann" "game/r/p1" 1000 1000] 1 1 in
  Broker.upd_participants u
    = JsMap.values (Broker.participants
        (fst (Broker.step (fst (Broker.onConnect "c1" Broker.init))
                (Broker.EMessage 1000
                   (Some (Broker.Join "p1" "Ann" "game/r/p1")) "c1"))))
  /\ forall h : PeerSession.Hook,
       ~ In (PeerSession.playerId h)
            (map Broker.id (PeerSession.otherParticipants h u))
       /\ forall p, In p (PeerSession.otherParticipants h u) <->
                    In p (Broker.upd_participants u)
                    /\ Broker.id p <> PeerSession.playerId h.
Proof.
  apply (C1_views_unfiltered_client_filters
           (fst (Broker.onConnect "c1" Broker.init))
           (Broker.EMessage 1000
              (Some (Broker.Join "p1" "Ann" "game/r/p1")) "c1")
           "c1"%string).
  simpl. left. reflexivity.
Defined.

(** C2, as stated, fails: p1 is already registered, joins again, and the
    broker broadcasts again. *)
Lemma C2_rejoin_broadcasts_again :
  let s := fst (Broker.run Broker.init Scenario.p1_joins) in
  JsMap.has "p1" (Broker.participants s) = true /\
  snd (Broker.handleJoin 2000 "p1" "Ann" "game/r/p1" "c1" s)
    = [("c1"%string,
        Broker.mkUpdate
          [Broker.mkParticipant "p1" "Ann" "game/r/p1" 2000 2000] 1 1)].
Proof. split; reflexivity. Qed.

(** C2, amended: every call of the broker's join operation, for a new id or
    a known one, sends the full registry to every connection of the room,
    and the stored participant carries the current time as lastSeen (and as
    joinedAt, the entry being overwritten) in every case. *)
Theorem C2_join_always_broadcasts_and_refreshes
    (now : Z) (mid mname mpath connection : string) (s : Broker.Server) :
  let r := Broker.handleJoin now mid mname mpath connection s in
  map fst (snd r) = map Broker.conn_id (Broker.connections s)
  /\ (forall c u, In (c, u) (snd r) ->
        Broker.upd_participants u
          = JsMap.values (Broker.participants (fst r)))
  /\ exists p,
       JsMap.get mid (Broker.participants (fst r)) = Some p
       /\ In p (JsMap.values (Broker.participants (fst r)))
       /\ Broker.id p = mid
       /\ Broker.lastSeen p = now
       /\ Broker.joinedAt p = now.
Proof.
  simpl. split; [|split].
  - unfold Broker.broadcastUpdate. simpl. rewrite map_map. simpl.
    apply setState_conn_ids.
  - intros c u Hin. apply broadcastUpdate_inv in Hin. now subst u.
  - eexists. split; [apply JsMap_get_set_eq|].
    split; [eapply JsMap_get_Some_In, JsMap_get_set_eq|].
    repeat split.
Qed.

Lemma C2_join_always_broadcasts_and_refreshes_witness :
  let s := fst (Broker.run Broker.init Scenario.p1_joins) in
  let r := Broker.handleJoin 2000 "p1" "Ann" "game/r/p1" "c1" s in
  Broker.upd_participants (Broker.mkBrokerUpdate (fst r))
    = JsMap.values (Broker.participants (fst r)).
Proof.
  intros s r.
  destruct (C2_join_always_broadcasts_and_refreshes
              2000 "p1" "Ann" "game/r/p1" "c1" s) as (_ & H & _).
  apply (H "c1"%string). simpl. left. reflexivity.
Defined.

(** ** Dead reckoning *)

Section OtherPlayerFacts.
Import Schema OtherPlayer.
Local Open Scope Q_scope.

Lemma ingest_same_timestamp presence cv :
  originTimestamp cv == timestamp presence -> ingest presence cv = cv.
Proof.
  intros H. unfold ingest. apply Qeq_bool_iff in H. now rewrite H.
Qed.

Lemma ingest_other_timestamp presence cv :
  ~ originTimestamp cv == timestamp presence ->
  ingest presence cv
  = mkCarVectors (timestamp presence) (pos presence) (vel presence)
      (deltaVelocity cv) (wheelRotation cv) (visibleSteering cv).
Proof.
  intros H. unfold ingest.
  destruct (Qeq_bool (originTimestamp cv) (timestamp presence)) eqn:E;
    [|reflexivity].
  apply Qeq_bool_iff in E. contradiction.
Qed.

Lemma useFrame_originTimestamp presence delta e g :
  playerRef e = Some g ->
  originTimestamp (carVectors (useFrame (Some presence) delta e))
  == timestamp presence.
Proof.
  intros Hg. unfold useFrame. rewrite Hg. simpl. unfold ingest.
  destruct (Qeq_bool (originTimestamp (carVectors e)) (timestamp presence))
    eqn:E; simpl.
  - now apply Qeq_bool_iff in E.
  - reflexivity.
Qed.

Lemma trajectory_redeliver s cell e evs :
  Forall (fun ev => ev = Deliver s \/ isFrame ev = true) evs ->
  cell = Some s ->
  trajectory cell e evs = trajectory cell e (List.filter isFrame evs).
Proof.
  intros Hall. revert cell e.
  induction Hall as [|ev evs Hev _ IH]; intros cell e Hcell; [reflexivity|].
  destruct ev as [p|delta]; simpl.
  - destruct Hev as [[= ->]|Hf]; [|discriminate].
    rewrite <- Hcell. now apply IH.
  - f_equal. now apply IH.
Qed.

End OtherPlayerFacts.

(** C3, as stated, fails: the stored waypoint has timestamp 100, a sample
    with the older timestamp 50 arrives, and the waypoint is replaced by
    the sample's position and velocity. *)
Lemma C3_older_sample_replaces_waypoint :
  let cv := OtherPlayer.mkCarVectors 100
              (Schema.mkVec3 1 1 1) (Schema.mkVec3 0 0 0)
              (Schema.mkVec3 0 0 0) 0 0 in
  let s := Schema.mkPresence "Ann" (Schema.mkVec3 5 5 5)
             (Schema.mkQuat 0 0 0 1) (Schema.mkVec2 0 0)
             (Schema.mkVec3 2 0 0) 50 in
  (Schema.timestamp s < OtherPlayer.originTimestamp cv)%Q /\
  OtherPlayer.positionCurrent (OtherPlayer.ingest s cv) = Schema.mkVec3 5 5 5 /\
  OtherPlayer.velocity (OtherPlayer.ingest s cv) = Schema.mkVec3 2 0 0 /\
  OtherPlayer.originTimestamp (OtherPlayer.ingest s cv) = 50%Q.
Proof. repeat split. Qed.

(** C3, amended: for every reconciler entry and every incoming sample, the
    stored position and velocity waypoint is replaced exactly when the
    sample's timestamp differs from the stored originTimestamp, be it newer
    or older; a sample whose timestamp equals the stored one is discarded
    for position and velocity. *)
Theorem C3_waypoint_replaced_iff_timestamp_differs
    (presence : Schema.PresenceType) (cv : OtherPlayer.CarVectors) :
  ((OtherPlayer.originTimestamp cv == Schema.timestamp presence)%Q ->
     OtherPlayer.ingest presence cv = cv)
  /\ (~ (OtherPlayer.originTimestamp cv == Schema.timestamp presence)%Q ->
      OtherPlayer.positionCurrent (OtherPlayer.ingest presence cv)
        = Schema.pos presence
      /\ OtherPlayer.velocity (OtherPlayer.ingest presence cv)
        = Schema.vel presence
      /\ OtherPlayer.originTimestamp (OtherPlayer.ingest presence cv)
        = Schema.timestamp presence).
Proof.
  split.
  - apply ingest_same_timestamp.
  - intros H. rewrite (ingest_other_timestamp _ _ H). repeat split.
Qed.

Lemma C3_waypoint_replaced_iff_timestamp_differs_witness :
  let cv := OtherPlayer.mkCarVectors 100
              (Schema.mkVec3 1 1 1) (Schema.mkVec3 0 0 0)
              (Schema.mkVec3 0 0 0) 0 0 in
  let same := Schema.mkPresence "Ann" (Schema.mkVec3 5 5 5)
             (Schema.mkQuat 0 0 0 1) (Schema.mkVec2 0 0)
             (Schema.mkVec3 2 0 0) 100 in
  let newer := Schema.mkPresence "Ann" (Schema.mkVec3 5 5 5)
             (Schema.mkQuat 0 0 0 1) (Schema.mkVec2 0 0)
             (Schema.mkVec3 2 0 0) 150 in
  OtherPlayer.ingest same cv = cv /\
  OtherPlayer.positionCurrent (OtherPlayer.ingest newer cv)
    = Schema.mkVec3 5 5 5.
Proof.
  intros cv same newer. split.
  - apply (proj1 (C3_waypoint_replaced_iff_timestamp_differs same cv)).
    reflexivity.
  - apply (proj2 (C3_waypoint_replaced_iff_timestamp_differs newer cv)).
    intros H. discriminate H.
Defined.

(** C4: a sample whose timestamp equals the stored originTimestamp leaves
    the position and velocity waypoint unchanged; once a frame has applied
    a sample, applying the same sample again is such a no-op; and
    delivering the same sample again, any number of times and anywhere
    between the same render ticks, yields the same trajectory of rendered
    positions as delivering it once. *)
Theorem C4_same_sample_idempotent (s : Schema.PresenceType) :
  (forall cv,
     (OtherPlayer.originTimestamp cv == Schema.timestamp s)%Q ->
     OtherPlayer.positionCurrent (OtherPlayer.ingest s cv)
       = OtherPlayer.positionCurrent cv
     /\ OtherPlayer.velocity (OtherPlayer.ingest s cv)
       = OtherPlayer.velocity cv)
  /\ (forall e g delta,
        OtherPlayer.playerRef e = Some g ->
        let cv := OtherPlayer.carVectors
                    (OtherPlayer.useFrame (Some s) delta e) in
        OtherPlayer.ingest s cv = cv)
  /\ (forall cell e evs,
        Forall (fun ev => ev = OtherPlayer.Deliver s
                          \/ OtherPlayer.isFrame ev = true) evs ->
        OtherPlayer.trajectory cell e (OtherPlayer.Deliver s :: evs)
        = OtherPlayer.trajectory cell e
            (OtherPlayer.Deliver s
               :: List.filter OtherPlayer.isFrame evs)).
Proof.
  split; [|split].
  - intros cv H. now rewrite (ingest_same_timestamp _ _ H).
  - intros e g delta Hg cv. apply ingest_same_timestamp.
    now apply useFrame_originTimestamp with (g := g).
  - intros cell e evs Hall. simpl. now apply trajectory_redeliver with (s := s).
Qed.

Lemma C4_same_sample_idempotent_witness :
  let s := Schema.mkPresence "Ann" (Schema.mkVec3 0 0 0)
             (Schema.mkQuat 0 0 0 1) (Schema.mkVec2 0 0)
             (Schema.mkVec3 1 0 0) 100 in
  OtherPlayer.trajectory None OtherPlayer.init
    [OtherPlayer.Deliver s; OtherPlayer.Frame (1 # 20);
     OtherPlayer.Deliver s; OtherPlayer.Frame (1 # 20)]
  = OtherPlayer.trajectory None OtherPlayer.init
    [OtherPlayer.Deliver s; OtherPlayer.Frame (1 # 20);
     OtherPlayer.Frame (1 # 20)].
Proof.
  intros s.
  apply (proj2 (proj2 (C4_same_sample_idempotent s)) None OtherPlayer.init
           [OtherPlayer.Frame (1 # 20); OtherPlayer.Deliver s;
            OtherPlayer.Frame (1 # 20)]).
  constructor; [right; reflexivity|].
  constructor; [left; reflexivity|].
  constructor; [right; reflexivity|].
  constructor.
Defined.

Section DeadReckoning.
Import Schema OtherPlayer.
Local Open Scope Q_scope.

(** The sample of the scenario: at the origin, moving along x at 1 m/s,
    with a timestamp other than the initial 0. *)
Variable s : PresenceType.
Hypothesis s_pos : pos s = mkVec3 0 0 0.
Hypothesis s_vel : vel s = mkVec3 1 0 0.
Hypothesis s_ts : ~ timestamp s == 0.

Lemma tracking_proper e T T' : T == T' -> tracking s e T -> tracking s e T'.
Proof.
  intros HT (g & Hg & Ho & Hv & Hp & H0 & H1).
  exists g. repeat split; auto; lra.
Qed.

Lemma blend_short delta :
  0 < delta -> delta < 1 # 10 -> Qmin (delta * 10) 1 == delta * 10.
Proof. intros H0 H1. apply Q.min_l. lra. Qed.

Lemma lag_bounds sx p alpha :
  0 <= sx -> sx < p -> 0 < alpha -> alpha < 1 ->
  0 < sx + (p - sx) * alpha /\ sx + (p - sx) * alpha < p.
Proof.
  intros Hs Hp Ha0 Ha1.
  assert (Hw : 0 < p - sx) by lra.
  assert (H1 : 0 < (p - sx) * alpha) by (apply Qmult_lt_0_compat; assumption).
  assert (H2 : 0 < (p - sx) * (1 - alpha))
    by (apply Qmult_lt_0_compat; lra).
  split; [lra|].
  assert (E : (p - sx) * (1 - alpha) == (p - sx) - (p - sx) * alpha) by ring.
  lra.
Qed.

Lemma first_frame delta :
  0 < delta -> delta < 1 # 10 ->
  tracking s (useFrame (Some s) delta init) delta.
Proof.
  intros H0 H1. unfold useFrame, init. simpl.
  rewrite ingest_other_timestamp
    by (simpl; intros E; apply s_ts; symmetry; exact E).
  eexists. split; [reflexivity|]. simpl. rewrite s_pos, s_vel. simpl.
  split; [reflexivity|]. split; [reflexivity|]. split; [ring|].
  rewrite (blend_short delta H0 H1).
  assert (E : 0 + 1 * delta == delta) by ring.
  rewrite E.
  apply lag_bounds; lra.
Qed.

Lemma next_frame e T delta :
  tracking s e T -> 0 < delta -> delta < 1 # 10 ->
  tracking s (useFrame (Some s) delta e) (T + delta).
Proof.
  intros (g & Hg & Ho & Hv & Hp & Hs0 & Hs1) H0 H1.
  unfold useFrame. rewrite Hg. rewrite (ingest_same_timestamp _ _ Ho).
  eexists. split; [reflexivity|]. simpl.
  split; [exact Ho|]. split; [exact Hv|].
  assert (E : x (positionCurrent (carVectors e))
              + x (velocity (carVectors e)) * delta == T + delta)
    by (rewrite Hv, Hp; ring).
  split; [exact E|].
  rewrite (blend_short delta H0 H1), E.
  apply lag_bounds; lra.
Qed.

Lemma frames_tracking deltas : forall e T,
  tracking s e T ->
  Forall (fun d => 0 < d /\ d < 1 # 10) deltas ->
  tracking s (frames s deltas e) (T + sumQ deltas).
Proof.
  induction deltas as [|d ds IH]; intros e T Ht Hall.
  - simpl. apply tracking_proper with (T := T); [ring | exact Ht].
  - inversion Hall as [|? ? [Hd0 Hd1] Hds]; subst.
    unfold frames. simpl. fold (frames s ds (useFrame (Some s) d e)).
    apply tracking_proper with (T := T + d + sumQ ds); [simpl; ring|].
    apply IH; [|exact Hds]. now apply next_frame.
Qed.

Lemma short_frames_lag d ds :
  Forall (fun d => 0 < d /\ d < 1 # 10) (d :: ds) ->
  exists q, queryX (frames s (d :: ds) init) = Some q
    /\ 0 < q /\ q < sumQ (d :: ds).
Proof.
  intros Hall. inversion Hall as [|? ? [Hd0 Hd1] Hds]; subst.
  destruct (frames_tracking ds _ _ (first_frame d Hd0 Hd1) Hds)
    as (g & Hg & _ & _ & _ & Hq0 & Hq1).
  exists (x (position g)).
  change (frames s (d :: ds) init)
    with (frames s ds (useFrame (Some s) d init)).
  unfold queryX. rewrite Hg. simpl. repeat split; [exact Hq0|].
  eapply Qlt_le_trans; [exact Hq1|]. simpl. lra.
Qed.

End DeadReckoning.

(** C5, as stated, fails: after the sample, one render tick of 200 ms has a
    blend factor clamped to 1, so the queried x is exactly 0.2. *)
Lemma C5_single_long_frame_reaches_prediction :
  let s := Schema.mkPresence "Ann" (Schema.mkVec3 0 0 0)
             (Schema.mkQuat 0 0 0 1) (Schema.mkVec2 0 0)
             (Schema.mkVec3 1 0 0) 100 in
  exists q,
    OtherPlayer.queryX (OtherPlayer.frames s [1 # 5] OtherPlayer.init)
      = Some q
    /\ (q == 1 # 5)%Q /\ ~ (q < 1 # 5)%Q.
Proof.
  eexists. split; [reflexivity|]. split; [reflexivity|].
  intros H. discriminate H.
Qed.

(** C5, amended: on every render tick with elapsed time dt the reconciler
    first advances the waypoint by position += velocity * dt and then sets
    smoothedPosition = lerp(smoothedPosition, predicted, min(dt * 10, 1));
    consequently, after receiving a sample with pos (0,0,0) and vel (1,0,0)
    and ticking for 200 ms in total, in render ticks each shorter than
    100 ms and with no new sample, the queried x-coordinate is strictly
    greater than 0 and strictly less than 0.2. *)
Theorem C5_tick_extrapolates_then_blends
    (s : Schema.PresenceType)
    (s_pos : Schema.pos s = Schema.mkVec3 0 0 0)
    (s_vel : Schema.vel s = Schema.mkVec3 1 0 0)
    (s_ts : ~ (Schema.timestamp s == 0)%Q) :
  (forall presence delta cv g,
     let cv0 := OtherPlayer.ingest presence cv in
     exists cv' g',
       OtherPlayer.useFrame (Some presence) delta
         (OtherPlayer.mkEntry cv (Some g))
       = OtherPlayer.mkEntry cv' (Some g')
       /\ OtherPlayer.positionCurrent cv'
          = OtherPlayer.add (OtherPlayer.positionCurrent cv0)
              (OtherPlayer.multiplyScalar (OtherPlayer.velocity cv0) delta)
       /\ OtherPlayer.position g'
          = OtherPlayer.lerp (OtherPlayer.position g)
              (OtherPlayer.positionCurrent cv')
              (Qmin (delta * 10) 1))
  /\ (forall d ds,
        Forall (fun d => 0 < d /\ d < 1 # 10)%Q (d :: ds) ->
        (OtherPlayer.sumQ (d :: ds) == 1 # 5)%Q ->
        exists q,
          OtherPlayer.queryX (OtherPlayer.frames s (d :: ds) OtherPlayer.init)
            = Some q
          /\ (0 < q)%Q /\ (q < 1 # 5)%Q).
Proof.
  split.
  - intros presence delta cv g cv0. do 2 eexists.
    split; [reflexivity|]. split; reflexivity.
  - intros d ds Hall Hsum.
    destruct (short_frames_lag s s_pos s_vel s_ts d ds Hall)
      as (q & Hq & H0 & H1).
    exists q. repeat split; auto. rewrite <- Hsum. exact H1.
Qed.

Lemma C5_tick_extrapolates_then_blends_witness :
  let s := Schema.mkPresence "Ann" (Schema.mkVec3 0 0 0)
             (Schema.mkQuat 0 0 0 1) (Schema.mkVec2 0 0)
             (Schema.mkVec3 1 0 0) 100 in
  exists q,
    OtherPlayer.queryX
      (OtherPlayer.frames s [1 # 20; 1 # 20; 1 # 20; 1 # 20]
         OtherPlayer.init) = Some q
    /\ (0 < q)%Q /\ (q < 1 # 5)%Q.
Proof.
  intros s.
  assert (Hts : ~ (Schema.timestamp s == 0)%Q)
    by (intros H; discriminate H).
  apply (proj2 (C5_tick_extrapolates_then_blends s eq_refl eq_refl Hts)
           (1 # 20)%Q [1 # 20; 1 # 20; 1 # 20]%Q).
  - repeat (constructor; [split; reflexivity|]). constructor.
  - reflexivity.
Defined.

(** ** Peer session: subscription retries *)

Section PeerSessionFacts.
Import Broker PeerSession.

Lemma waits_app l1 l2 : waits (l1 ++ l2) = waits l1 ++ waits l2.
Proof.
  induction l1 as [|e l1 IH]; [reflexivity|].
  destruct e; simpl; rewrite ?IH; reflexivity.
Qed.

Lemma attempts_app pid l1 l2 :
  attempts pid (l1 ++ l2) = attempts pid l1 ++ attempts pid l2.
Proof.
  induction l1 as [|e l1 IH]; [reflexivity|].
  destruct e; simpl; rewrite ?IH; try reflexivity.
  destruct (String.eqb pid0 pid); simpl; rewrite ?IH; reflexivity.
Qed.

Variable h : Hook.
Variable p : MoQParticipant.
Hypothesis not_self : id p <> playerId h.
Hypothesis not_our_path : moqPath p <> ourPath h.

Lemma onCreateError_effect rc st :
  let st' := onCreateError p rc st in
  moqConnection st' = moqConnection st
  /\ timers st'
     = timers st
         ++ (if (rc <? 3)%nat then [mkTimer (retryDelay rc) p rc] else [])
  /\ waits (log st')
     = waits (log st) ++ (if (rc <? 3)%nat then [retryDelay rc] else [])
  /\ ((rc <? 3)%nat = false ->
      last (log st') = Some (ErrorGaveUp (playerName p)))
  /\ attempts (id p) (log st') = attempts (id p) (log st).
Proof.
  unfold onCreateError. destruct (rc <? 3)%nat; simpl.
  - rewrite ?waits_app, ?attempts_app, ?app_nil_r. simpl.
    rewrite ?app_nil_r. repeat split. discriminate.
  - rewrite ?waits_app, ?attempts_app, ?app_nil_r. simpl.
    rewrite ?app_nil_r. repeat split. intros _. now rewrite last_snoc.
Qed.

(** What one guarded call adds to the pending timers and to the delays. *)
Lemma createWatchBroadcast_effect rc o st :
  moqConnection st = true ->
  let st' := createWatchBroadcast h p rc o st in
  moqConnection st' = true
  /\ timers st'
     = timers st ++ (if fails o && (rc <? 3)%nat
                     then [mkTimer (retryDelay rc) p rc] else [])
  /\ waits (log st')
     = waits (log st)
         ++ (if fails o && (rc <? 3)%nat then [retryDelay rc] else [])
  /\ (fails o = true -> (rc <? 3)%nat = false ->
      last (log st') = Some (ErrorGaveUp (playerName p)))
  /\ attempts (id p) (log st')
     = attempts (id p) (log st)
         ++ (match o with PathThrows => [] | _ => [rc] end).
Proof.
  intros Hc. unfold createWatchBroadcast. rewrite Hc. simpl.
  apply String.eqb_neq in not_self. rewrite not_self.
  apply String.eqb_neq in not_our_path. rewrite not_our_path.
  destruct o; simpl.
  - destruct (onCreateError_effect rc st) as (H1 & H2 & H3 & H4 & H5).
    rewrite H1, H2, H3, H5, app_nil_r. repeat split; auto.
  - destruct (onCreateError_effect rc
                (emit (NewWatchBroadcast (id p) rc) st))
      as (H1 & H2 & H3 & H4 & H5).
    rewrite H1, H2, H3, H5. simpl.
    rewrite waits_app, attempts_app. simpl.
    rewrite String.eqb_refl, app_nil_r. repeat split; auto.
  - rewrite !waits_app, !attempts_app. simpl.
    rewrite String.eqb_refl, ?app_nil_r. repeat split; auto. discriminate.
Qed.

Lemma fireTimer_single o st t :
  timers st = [t] ->
  fireTimer h 0 o st
  = createWatchBroadcast h (t_participant t) (t_retryCount t + 1) o
      (emit (LogRetrying (playerName (t_participant t)) (t_retryCount t + 1))
         (mkState (moqConnection st) (isMoQReady st) (remoteBroadcasts st)
            (remoteStates st) (participantsRef st) (prevParticipants st)
            [] (log st))).
Proof. intros Ht. unfold fireTimer. rewrite Ht. reflexivity. Qed.

(** A chain of attempts that starts with attempt [rc]: the delays are
    [retryDelay rc], [retryDelay (rc + 1)], ... and stop at the third retry. *)
Lemma retry_chain os : forall rc o st,
  moqConnection st = true -> timers st = [] -> (rc <= 3)%nat ->
  let final := drain h os (createWatchBroadcast h p rc o st) in
  exists n,
    (rc + n <= 3)%nat
    /\ waits (log final) = waits (log st) ++ map retryDelay (seq rc n)
    /\ (fails o = true -> Forall (fun o => fails o = true) os ->
        (3 - rc <= length os)%nat ->
        n = (3 - rc)%nat /\ timers final = []
        /\ last (log final) = Some (ErrorGaveUp (playerName p))).
Proof.
  induction os as [|o' os IH]; intros rc o st Hc Ht Hrc;
    destruct (createWatchBroadcast_effect rc o st Hc)
      as (Hc1 & Ht1 & Hw1 & Hg1 & _); rewrite Ht in Ht1; simpl in Ht1.
  - simpl. rewrite Hw1.
    destruct (fails o) eqn:Ho, (rc <? 3)%nat eqn:Hlt; simpl in *.
    + apply Nat.ltb_lt in Hlt. exists 1%nat.
      split; [lia|]. split; [reflexivity|]. intros _ _ Hlen. lia.
    + apply Nat.ltb_ge in Hlt. exists 0%nat.
      split; [lia|]. split; [reflexivity|]. intros _ _ _.
      split; [lia|]. split; [exact Ht1|]. now apply Hg1.
    + exists 0%nat. split; [lia|]. split; [reflexivity|]. discriminate.
    + exists 0%nat. split; [lia|]. split; [reflexivity|]. discriminate.
  - simpl.
    destruct (fails o) eqn:Ho, (rc <? 3)%nat eqn:Hlt; simpl in *;
      rewrite Ht1.
    + apply Nat.ltb_lt in Hlt.
      rewrite (fireTimer_single o' _ _ Ht1). simpl.
      match goal with
      | |- context [createWatchBroadcast h p (rc + 1) o' ?st2] =>
          destruct (IH (rc + 1)%nat o' st2) as (n & Hn & Hw & Hall);
            [exact Hc1 | reflexivity | lia |]
      end.
      exists (S n). split; [lia|]. split.
      * rewrite Hw. simpl. rewrite waits_app, Hw1. simpl.
        rewrite app_nil_r, <- app_assoc. simpl.
        now rewrite Nat.add_1_r.
      * intros _ Hf Hlen. inversion Hf as [|? ? Ho' Hf']; subst.
        destruct (Hall Ho' Hf') as (-> & Htf & Hl); [simpl in Hlen; lia|].
        split; [lia|]. split; assumption.
    + apply Nat.ltb_ge in Hlt. exists 0%nat. rewrite Hw1.
      split; [lia|]. split; [reflexivity|]. intros _ _ _.
      split; [lia|]. split; [exact Ht1|]. now apply Hg1.
    + exists 0%nat. rewrite Hw1.
      split; [lia|]. split; [reflexivity|]. discriminate.
    + exists 0%nat. rewrite Hw1.
      split; [lia|]. split; [reflexivity|]. discriminate.
Qed.

End PeerSessionFacts.

(** C6, as stated, fails: when every attempt fails the three retries wait
    1000, 2000 and 3000 ms, and 3000 is not twice 2000. *)
Lemma C6_waits_do_not_double :
  PeerSession.waits (PeerSession.log Scenario.bob_unreachable)
    = [1000; 2000; 3000]
  /\ ~ PeerSession.doubling
        (PeerSession.waits (PeerSession.log Scenario.bob_unreachable)).
Proof.
  split; [reflexivity|].
  intros H. specialize (H 1%nat 2000 3000 eq_refl eq_refl). discriminate H.
Qed.

(** C6, amended: for every peer subscription whose open fails, the hook
    retries with a linearly growing, capped backoff: the n-th retry waits
    n * 1000 ms (1 s, 2 s, 3 s), no more than 3 retries are made, and when
    the last one fails too the final failure is logged and nothing stays
    scheduled. *)
Theorem C6_retries_linear_and_capped
    (h : PeerSession.Hook) (p : Broker.MoQParticipant)
    (st : PeerSession.State)
    (not_self : Broker.id p <> PeerSession.playerId h)
    (not_our_path : Broker.moqPath p <> PeerSession.ourPath h)
    (Hc : PeerSession.moqConnection st = true)
    (Ht : PeerSession.timers st = []) :
  (forall o os,
     let final :=
       PeerSession.drain h os (PeerSession.createWatchBroadcast h p 0 o st) in
     exists n, (n <= 3)%nat
       /\ PeerSession.waits (PeerSession.log final)
          = PeerSession.waits (PeerSession.log st)
              ++ take n [1000; 2000; 3000])
  /\ (forall o os,
        PeerSession.fails o = true ->
        Forall (fun o => PeerSession.fails o = true) os ->
        (3 <= length os)%nat ->
        let final :=
          PeerSession.drain h os
            (PeerSession.createWatchBroadcast h p 0 o st) in
        PeerSession.waits (PeerSession.log final)
          = PeerSession.waits (PeerSession.log st) ++ [1000; 2000; 3000]
        /\ PeerSession.timers final = []
        /\ last (PeerSession.log final)
           = Some (PeerSession.ErrorGaveUp (Broker.playerName p))).
Proof.
  split.
  - intros o os final.
    destruct (retry_chain h p not_self not_our_path os 0%nat o st Hc Ht)
      as (n & Hn & Hw & _); [lia|].
    exists n. split; [lia|]. subst final. rewrite Hw.
    destruct n as [|[|[|[|n]]]]; try reflexivity. lia.
  - intros o os Ho Hos Hlen final.
    destruct (retry_chain h p not_self not_our_path os 0%nat o st Hc Ht)
      as (n & Hn & Hw & Hall); [lia|].
    destruct (Hall Ho Hos) as (-> & Htf & Hl); [simpl; lia|].
    subst final. rewrite Hw. repeat split; assumption.
Qed.

Lemma C6_retries_linear_and_capped_witness :
  let final :=
    PeerSession.drain Scenario.me
      [PeerSession.WatchThrows; PeerSession.PathThrows;
       PeerSession.WatchThrows]
      (PeerSession.createWatchBroadcast Scenario.me Scenario.bob 0
         PeerSession.WatchThrows Scenario.ready) in
  PeerSession.waits (PeerSession.log final)
    = PeerSession.waits (PeerSession.log Scenario.ready)
        ++ [1000; 2000; 3000]
  /\ PeerSession.timers final = []
  /\ last (PeerSession.log final) = Some (PeerSession.ErrorGaveUp "Bob").
Proof.
  assert (H1 : Broker.id Scenario.bob <> PeerSession.playerId Scenario.me)
    by (intros H; discriminate H).
  assert (H2 : Broker.moqPath Scenario.bob
               <> PeerSession.ourPath Scenario.me)
    by (intros H; discriminate H).
  apply (proj2 (C6_retries_linear_and_capped Scenario.me Scenario.bob
                  Scenario.ready H1 H2 eq_refl eq_refl)
           PeerSession.WatchThrows
           [PeerSession.WatchThrows; PeerSession.PathThrows;
            PeerSession.WatchThrows]).
  - reflexivity.
  - repeat constructor.
  - simpl. lia.
Defined.

(** ** Peer session: removal of a participant *)

Lemma cleanupWatchBroadcast_timers pid st :
  PeerSession.timers (PeerSession.cleanupWatchBroadcast pid st)
  = PeerSession.timers st.
Proof.
  unfold PeerSession.cleanupWatchBroadcast.
  destruct (PeerSession.remoteBroadcasts st !! pid); reflexivity.
Qed.

(** C7, as stated, fails: p2's subscription failed to open and its retry is
    pending when the broker reports p2 gone; the retry stays pending after
    the removal, and when its timer expires a second connect attempt for p2
    is made and yet another retry is scheduled. *)
Lemma C7_retry_survives_removal :
  PeerSession.pendingFor "p2" Scenario.bob_removed
    = [PeerSession.mkTimer 1000 Scenario.bob 0]
  /\ PeerSession.log Scenario.bob_retried
     = [PeerSession.OnParticipantJoin "p2";
        PeerSession.NewWatchBroadcast "p2" 0;
        PeerSession.ErrorFailed "Bob";
        PeerSession.SetTimeout 1000;
        PeerSession.OnParticipantLeave "p2";
        PeerSession.LogRetrying "Bob" 1;
        PeerSession.NewWatchBroadcast "p2" 1;
        PeerSession.ErrorFailed "Bob";
        PeerSession.SetTimeout 2000]
  /\ PeerSession.attempts "p2" (PeerSession.log Scenario.bob_removed) = [0%nat]
  /\ PeerSession.attempts "p2" (PeerSession.log Scenario.bob_retried)
     = [0%nat; 1%nat].
Proof. repeat split; reflexivity. Qed.

(** C7, amended: removing a participant closes and discards its
    subscription when one is open, and is a safe no-op when it never
    opened; a subscription-open retry that is pending for that participant
    is not cancelled by the removal: it stays scheduled, and when its timer
    fires the next connect attempt for that participant is made. *)
Theorem C7_removal_keeps_pending_retry
    (h : PeerSession.Hook) (pid : string) (st : PeerSession.State) :
  PeerSession.timers (PeerSession.cleanupWatchBroadcast pid st)
    = PeerSession.timers st
  /\ (PeerSession.remoteBroadcasts st !! pid = None ->
      PeerSession.cleanupWatchBroadcast pid st = st)
  /\ (is_Some (PeerSession.remoteBroadcasts st !! pid) ->
      let st' := PeerSession.cleanupWatchBroadcast pid st in
      PeerSession.remoteBroadcasts st' !! pid = None
      /\ PeerSession.remoteStates st' !! pid = None
      /\ PeerSession.log st' = PeerSession.log st
                                 ++ [PeerSession.BroadcastClose pid])
  /\ (forall k t o,
        PeerSession.timers st !! k = Some t ->
        PeerSession.moqConnection st = true ->
        Broker.id (PeerSession.t_participant t) <> PeerSession.playerId h ->
        Broker.moqPath (PeerSession.t_participant t)
          <> PeerSession.ourPath h ->
        o <> PeerSession.PathThrows ->
        let st' := PeerSession.fireTimer h k o
                     (PeerSession.cleanupWatchBroadcast pid st) in
        PeerSession.attempts (Broker.id (PeerSession.t_participant t))
          (PeerSession.log st')
        = PeerSession.attempts (Broker.id (PeerSession.t_participant t))
            (PeerSession.log (PeerSession.cleanupWatchBroadcast pid st))
          ++ [(PeerSession.t_retryCount t + 1)%nat]).
Proof.
  split; [apply cleanupWatchBroadcast_timers|].
  split; [|split].
  - intros Hn. unfold PeerSession.cleanupWatchBroadcast. now rewrite Hn.
  - intros [b Hb] st'. subst st'.
    unfold PeerSession.cleanupWatchBroadcast. rewrite Hb. simpl.
    rewrite !lookup_delete_eq. repeat split.
  - intros k t o Hk Hc Hid Hpath Ho st'. subst st'.
    set (st1 := PeerSession.cleanupWatchBroadcast pid st).
    assert (Hk1 : PeerSession.timers st1 !! k = Some t)
      by (unfold st1; now rewrite cleanupWatchBroadcast_timers).
    assert (Hc1 : PeerSession.moqConnection st1 = true).
    { unfold st1, PeerSession.cleanupWatchBroadcast.
      destruct (PeerSession.remoteBroadcasts st !! pid); exact Hc. }
    unfold PeerSession.fireTimer. rewrite Hk1.
    match goal with
    | |- context [PeerSession.createWatchBroadcast h _ _ o ?st2] =>
        destruct (createWatchBroadcast_effect h (PeerSession.t_participant t)
                    Hid Hpath (PeerSession.t_retryCount t + 1) o st2 Hc1)
          as (_ & _ & _ & _ & Ha)
    end.
    rewrite Ha. simpl. rewrite attempts_app. simpl. rewrite app_nil_r.
    destruct o; [contradiction| |]; reflexivity.
Qed.

Lemma C7_removal_keeps_pending_retry_witness :
  let failed :=
    PeerSession.createWatchBroadcast Scenario.me Scenario.bob 0
      PeerSession.WatchThrows Scenario.ready in
  PeerSession.cleanupWatchBroadcast "p2" failed = failed
  /\ PeerSession.attempts "p2"
       (PeerSession.log
          (PeerSession.fireTimer Scenario.me 0 PeerSession.WatchThrows
             (PeerSession.cleanupWatchBroadcast "p2" failed)))
     = PeerSession.attempts "p2"
         (PeerSession.log (PeerSession.cleanupWatchBroadcast "p2" failed))
       ++ [1%nat].
Proof.
  intros failed.
  destruct (C7_removal_keeps_pending_retry Scenario.me "p2" failed)
    as (_ & Hsafe & _ & Hretry).
  split.
  - apply Hsafe. reflexivity.
  - apply (Hretry 0%nat (PeerSession.mkTimer 1000 Scenario.bob 0)
             PeerSession.WatchThrows).
    + reflexivity.
    + reflexivity.
    + intros H. discriminate H.
    + intros H. discriminate H.
    + intros H. discriminate H.
Defined.

(** ** Reconnect backoff *)

Lemma failures_bounds (p : Connection.ConnectionProps) (n : nat) :
  0 <= Connection.delay p -> Connection.delay p <= Connection.maxDelay p ->
  0 <= Connection.currentDelay (Connection.failures p n (Connection.create p))
  /\ Connection.currentDelay (Connection.failures p n (Connection.create p))
     <= Connection.maxDelay p.
Proof.
  intros H0 H1. induction n as [|n [IH0 IH1]]; simpl; lia.
Qed.

(** C8: over any number of consecutive connection failures the current
    backoff never decreases and never exceeds maxDelay, and one successful
    connection sets it back to the initial delay; with the defaults these
    are 30000 ms and 1000 ms. *)
Theorem C8_backoff_monotone_capped_reset
    (p : Connection.ConnectionProps)
    (H0 : 0 <= Connection.delay p)
    (H1 : Connection.delay p <= Connection.maxDelay p) (n : nat) :
  let s := Connection.failures p n (Connection.create p) in
  Connection.currentDelay s
    <= Connection.currentDelay (Connection.onFailure p s)
  /\ Connection.currentDelay s <= Connection.maxDelay p
  /\ Connection.currentDelay (Connection.onFailure p s)
     <= Connection.maxDelay p
  /\ Connection.currentDelay (Connection.onSuccess p s) = Connection.delay p
  /\ Connection.status (Connection.onSuccess p s) = Connection.connected
  /\ Connection.delay Connection.defaults = 1000
  /\ Connection.maxDelay Connection.defaults = 30000.
Proof.
  intros s. destruct (failures_bounds p n H0 H1) as [Hlo Hhi].
  fold s in Hlo, Hhi. simpl. repeat split; lia.
Qed.

Lemma C8_backoff_monotone_capped_reset_witness :
  let s := Connection.failures Connection.defaults 5
             (Connection.create Connection.defaults) in
  Connection.currentDelay s = 30000
  /\ Connection.currentDelay s
     <= Connection.currentDelay (Connection.onFailure Connection.defaults s)
  /\ Connection.currentDelay (Connection.onSuccess Connection.defaults s)
     = 1000.
Proof.
  intros s.
  assert (H0 : 0 <= Connection.delay Connection.defaults) by (simpl; lia).
  assert (H1 : Connection.delay Connection.defaults
               <= Connection.maxDelay Connection.defaults) by (simpl; lia).
  destruct (C8_backoff_monotone_capped_reset Connection.defaults H0 H1 5)
    as (Hmono & _ & _ & Hreset & _).
  split; [reflexivity|]. split; [exact Hmono | exact Hreset].
Defined.

(** ** Presence store and rendered players *)

Section StoreFacts.
Context {V : Type}.
Implicit Types (ref upd : gmap string (gmap string V)).

(** The sync-presence loop, entry by entry. *)
Lemma sync_lookup ref upd pid :
  map_fold OtherPlayers.mergeOne ref upd !! pid
  = match upd !! pid with
    | Some d =>
        Some (OtherPlayers.spread (OtherPlayers.currentOrEmpty ref pid) d)
    | None => ref !! pid
    end.
Proof.
  revert pid.
  apply (map_fold_weak_ind
           (fun r m => forall pid,
              r !! pid
              = match m !! pid with
                | Some d =>
                    Some (OtherPlayers.spread
                            (OtherPlayers.currentOrEmpty ref pid) d)
                | None => ref !! pid
                end)).
  - intros pid. now rewrite lookup_empty.
  - intros i d m r Hi IH pid. unfold OtherPlayers.mergeOne.
    destruct (decide (i = pid)) as [->|Hne].
    + rewrite !lookup_insert_eq. unfold OtherPlayers.currentOrEmpty.
      now rewrite (IH pid), Hi.
    + rewrite !lookup_insert_ne by exact Hne. apply IH.
Qed.

Lemma spread_lookup (currentP presence : gmap string V) f :
  OtherPlayers.spread currentP presence !! f
  = match presence !! f with
    | Some v => Some v
    | None => currentP !! f
    end.
Proof.
  unfold OtherPlayers.spread. rewrite lookup_union.
  destruct (presence !! f), (currentP !! f); reflexivity.
Qed.

End StoreFacts.

(** C9: when the client applies a delta sync for a participant P (an entry
    of the message for an id other than the client's own, which the handler
    drops), every field absent from P's partial sample keeps its previous
    value and every field present takes the sample's value, the stored
    presence of every participant not named in the delta is unchanged, and
    a delta for an id with no existing entry creates an entry containing
    exactly the delta's fields; the player list is untouched. *)
Theorem C9_delta_sync_merges_fieldwise {V : Type}
    (selfId P : string) (users : gmap string (gmap string V))
    (delta : gmap string V) (s : @OtherPlayers.Store V) :
  P <> selfId ->
  users !! P = Some delta ->
  let s' := OtherPlayers.messageHandler selfId
              (OtherPlayers.SyncPresence users) s in
  (exists merged,
     OtherPlayers.presenceRef s' !! P = Some merged
     /\ (forall f, delta !! f = None ->
           merged !! f
           = match OtherPlayers.presenceRef s !! P with
             | Some old => old !! f
             | None => None
             end)
     /\ (forall f v, delta !! f = Some v -> merged !! f = Some v))
  /\ (forall Q, users !! Q = None ->
        OtherPlayers.presenceRef s' !! Q = OtherPlayers.presenceRef s !! Q)
  /\ (OtherPlayers.presenceRef s !! P = None ->
      OtherPlayers.presenceRef s' !! P = Some delta)
  /\ OtherPlayers.playerIds s' = OtherPlayers.playerIds s.
Proof.
  intros Hne HP s'. subst s'. simpl.
  assert (HP' : delete selfId users !! P = Some delta)
    by (rewrite lookup_delete_ne; [exact HP | congruence]).
  split; [|split; [|split]].
  - eexists. split; [rewrite sync_lookup, HP'; reflexivity|]. split.
    + intros f Hf. rewrite spread_lookup, Hf.
      unfold OtherPlayers.currentOrEmpty.
      destruct (OtherPlayers.presenceRef s !! P); [reflexivity|].
      apply lookup_empty.
    + intros f v Hf. now rewrite spread_lookup, Hf.
  - intros Q HQ. rewrite sync_lookup.
    destruct (decide (selfId = Q)) as [->|HsQ].
    + now rewrite lookup_delete_eq.
    + rewrite lookup_delete_ne by exact HsQ. now rewrite HQ.
  - intros Hnone. rewrite sync_lookup, HP'.
    unfold OtherPlayers.currentOrEmpty, OtherPlayers.spread.
    rewrite Hnone. f_equal. apply (right_id_L ∅ (∪)).
  - reflexivity.
Qed.

Lemma C9_delta_sync_merges_fieldwise_witness :
  let s := OtherPlayers.mkStore ["p2"%string]
             {[ "p2"%string :=
                  ({[ "name"%string := 7%Z; "timestamp"%string := 100%Z ]}
                   : gmap string Z) ]} in
  let users : gmap string (gmap string Z) :=
    {[ "p2"%string := {[ "timestamp"%string := 133%Z ]} ]} in
  let s' := OtherPlayers.messageHandler "p1"
              (OtherPlayers.SyncPresence users) s in
  exists merged,
    OtherPlayers.presenceRef s' !! "p2"%string = Some merged
    /\ merged !! "name"%string = Some 7%Z
    /\ merged !! "timestamp"%string = Some 133%Z.
Proof.
  intros s users s'.
  assert (Hne : "p2"%string <> "p1"%string) by (intros H; discriminate H).
  destruct (C9_delta_sync_merges_fieldwise "p1" "p2" users
              {[ "timestamp"%string := 133%Z ]} s Hne eq_refl)
    as ((merged & Hm & Hkeep & Htake) & _).
  exists merged. split; [exact Hm|]. split.
  - rewrite (Hkeep "name"%string eq_refl). reflexivity.
  - apply Htake. reflexivity.
Defined.

Lemma omap_cons_match {A B} (f : A -> option B) (a : A) (l : list A) :
  omap f (a :: l)
  = match f a with Some b => b :: omap f l | None => omap f l end.
Proof. reflexivity. Qed.

(** The rendered players are the first [MAX_VEHICLE_INSTANCES - 3] ids. *)
Lemma instantiated_from (c : Z) (l : list string) : forall k : nat,
  omap (fun o => o)
    (imap (fun i pid =>
             if Z.of_nat (k + i) <? c then Some pid else None) l)
  = take (Z.to_nat (c - Z.of_nat k)) l.
Proof.
  induction l as [|pid l IH]; intros k.
  - now rewrite take_nil.
  - rewrite imap_cons.
    rewrite (imap_ext _ (fun i pid =>
               if Z.of_nat (S k + i) <? c then Some pid else None))
      by (intros i x _; unfold compose;
          replace (k + S i)%nat with (S k + i)%nat by lia; reflexivity).
    rewrite omap_cons_match, IH, Nat.add_0_r.
    destruct (Z.of_nat k <? c) eqn:E.
    + apply Z.ltb_lt in E.
      replace (Z.to_nat (c - Z.of_nat k))
        with (S (Z.to_nat (c - Z.of_nat (S k)))) by lia.
      reflexivity.
    + apply Z.ltb_ge in E.
      replace (Z.to_nat (c - Z.of_nat k)) with 0%nat by lia.
      replace (Z.to_nat (c - Z.of_nat (S k))) with 0%nat by lia.
      reflexivity.
Qed.

Lemma instantiated_take (MAX_VEHICLE_INSTANCES : Z) (ids : list string) :
  OtherPlayers.instantiated MAX_VEHICLE_INSTANCES ids
  = take (Z.to_nat (MAX_VEHICLE_INSTANCES - 3)) ids.
Proof.
  unfold OtherPlayers.instantiated, OtherPlayers.render.
  pose proof (instantiated_from (MAX_VEHICLE_INSTANCES - 3) ids 0) as H.
  simpl in H. rewrite Z.sub_0_r in H. exact H.
Qed.

(** C10: for every list of remote player ids, the id at index i is rendered
    if and only if i < MAX_VEHICLE_INSTANCES - 3 (otherwise null is
    rendered in its place), so the instantiated players are a prefix of the
    list, at most MAX_VEHICLE_INSTANCES - 3 of them (none when that number
    is negative); the presence of a player added beyond the cap is stored
    all the same. *)
Theorem C10_render_cap (MAX_VEHICLE_INSTANCES : Z) (ids : list string) :
  (forall (i : nat) (pid : string),
     ids !! i = Some pid ->
     (OtherPlayers.render MAX_VEHICLE_INSTANCES ids !! i = Some (Some pid)
      <-> Z.of_nat i < MAX_VEHICLE_INSTANCES - 3)
     /\ (OtherPlayers.render MAX_VEHICLE_INSTANCES ids !! i = Some None
         <-> ~ Z.of_nat i < MAX_VEHICLE_INSTANCES - 3))
  /\ OtherPlayers.instantiated MAX_VEHICLE_INSTANCES ids
     = take (Z.to_nat (MAX_VEHICLE_INSTANCES - 3)) ids
  /\ Z.of_nat (length (OtherPlayers.instantiated MAX_VEHICLE_INSTANCES ids))
     <= Z.max 0 (MAX_VEHICLE_INSTANCES - 3)
  /\ (forall (V : Type) (selfId pid : string) (presence : gmap string V)
        (s : @OtherPlayers.Store V),
        pid <> selfId ->
        OtherPlayers.presenceRef
          (OtherPlayers.messageHandler selfId
             (OtherPlayers.PlayerAdded pid presence) s) !! pid
        = Some presence).
Proof.
  split; [|split; [|split]].
  - intros i pid Hi. unfold OtherPlayers.render.
    rewrite list_lookup_imap, Hi. simpl.
    destruct (Z.of_nat i <? MAX_VEHICLE_INSTANCES - 3) eqn:E.
    + apply Z.ltb_lt in E. split; split; auto; try discriminate.
      intros H. contradiction.
    + apply Z.ltb_ge in E. split; split; auto; try discriminate; lia.
  - apply instantiated_take.
  - rewrite instantiated_take, length_take. lia.
  - intros V selfId pid presence s Hne. simpl.
    apply String.eqb_neq in Hne. rewrite Hne. simpl.
    apply lookup_insert_eq.
Qed.

Lemma C10_render_cap_witness :
  OtherPlayers.render 5 ["a"; "b"; "c"]%string !! 1%nat
    = Some (Some "b"%string)
  /\ OtherPlayers.render 5 ["a"; "b"; "c"]%string !! 2%nat = Some None
  /\ OtherPlayers.presenceRef
       (OtherPlayers.messageHandler "me"
          (OtherPlayers.PlayerAdded "c" ({[ "name"%string := 3%Z ]}))
          (OtherPlayers.mkStore ["a"; "b"]%string ∅)) !! "c"%string
     = Some ({[ "name"%string := 3%Z ]} : gmap string Z).
Proof.
  destruct (C10_render_cap 5 ["a"; "b"; "c"]%string) as (Hr & _ & _ & Hs).
  split; [|split].
  - apply (proj1 (Hr 1%nat "b"%string eq_refl)). lia.
  - apply (proj2 (Hr 2%nat "c"%string eq_refl)). lia.
  - apply Hs. intros H. discriminate H.
Defined.

(** * Further properties of the modelled code *)

(** ** Registry of the broker *)

Section RegistryFacts.
Context {V : Type}.
Implicit Types (m : JsMap.t V) (k : string) (v : V).

Lemma JsMap_get_None k m : JsMap.get k m = None <-> ~ In k (map fst m).
Proof.
  induction m as [|[k' v'] m IH]; simpl; [tauto|].
  destruct (String.eqb k k') eqn:E.
  - apply String.eqb_eq in E. subst. split; [discriminate|]. tauto.
  - apply String.eqb_neq in E. rewrite IH. split.
    + intros H [Hk|Hk]; [congruence | tauto].
    + tauto.
Qed.

Lemma JsMap_keys_set k v m :
  map fst (JsMap.set k v m)
  = if JsMap.has k m then map fst m else map fst m ++ [k].
Proof.
  unfold JsMap.has. induction m as [|[k' v'] m IH]; simpl; [reflexivity|].
  destruct (String.eqb k k') eqn:E; simpl; [reflexivity|].
  rewrite IH. destruct (JsMap.get k m); reflexivity.
Qed.

Lemma JsMap_keys_delete k m : incl (map fst (JsMap.delete k m)) (map fst m).
Proof.
  induction m as [|[k' v'] m IH]; simpl; [apply incl_refl|].
  destruct (String.eqb k k'); simpl.
  - apply incl_tl, incl_refl.
  - apply incl_cons; [now left|]. now apply incl_tl.
Qed.

Lemma NoDup_snoc {A} (l : list A) (a : A) :
  List.NoDup l -> ~ In a l -> List.NoDup (l ++ [a]).
Proof.
  induction l as [|b l IH]; simpl; intros Hnd Hni.
  - constructor; [intros []|constructor].
  - apply NoDup_cons_iff in Hnd as [Hb Hnd].
    constructor.
    + rewrite in_app_iff. simpl. intros [H|[H|[]]]; [tauto|].
      subst. tauto.
    + apply IH; tauto.
Qed.

Lemma JsMap_NoDup_set k v m :
  List.NoDup (map fst m) -> List.NoDup (map fst (JsMap.set k v m)).
Proof.
  intros Hnd. rewrite JsMap_keys_set. unfold JsMap.has.
  destruct (JsMap.get k m) eqn:E; [exact Hnd|].
  apply JsMap_get_None in E. now apply NoDup_snoc.
Qed.

Lemma JsMap_NoDup_delete k m :
  List.NoDup (map fst m) -> List.NoDup (map fst (JsMap.delete k m)).
Proof.
  induction m as [|[k' v'] m IH]; simpl; [auto|].
  intros Hnd. apply NoDup_cons_iff in Hnd as [Hk Hnd].
  destruct (String.eqb k k'); simpl; [exact Hnd|].
  constructor; [|now apply IH].
  intros H. apply Hk. now apply (JsMap_keys_delete k m).
Qed.

Lemma JsMap_get_delete_eq k m :
  List.NoDup (map fst m) -> JsMap.get k (JsMap.delete k m) = None.
Proof.
  induction m as [|[k' v'] m IH]; simpl; [reflexivity|].
  intros Hnd. apply NoDup_cons_iff in Hnd as [Hk Hnd].
  destruct (String.eqb k k') eqn:E; simpl.
  - apply String.eqb_eq in E. subst. now apply JsMap_get_None.
  - rewrite E. now apply IH.
Qed.

Lemma JsMap_get_delete_ne k k' m :
  k <> k' -> JsMap.get k' (JsMap.delete k m) = JsMap.get k' m.
Proof.
  intros Hne. induction m as [|[k0 v0] m IH]; simpl; [reflexivity|].
  destruct (String.eqb k k0) eqn:E; simpl.
  - apply String.eqb_eq in E. subst k0.
    destruct (String.eqb k' k) eqn:E'; [|reflexivity].
    apply String.eqb_eq in E'. congruence.
  - now rewrite IH.
Qed.

Lemma JsMap_delete_absent k m : JsMap.get k m = None -> JsMap.delete k m = m.
Proof.
  induction m as [|[k' v'] m IH]; simpl; [reflexivity|].
  destruct (String.eqb k k'); [discriminate|].
  intros H. now rewrite IH.
Qed.

Lemma JsMap_delete_set_new k v m :
  JsMap.get k m = None -> JsMap.delete k (JsMap.set k v m) = m.
Proof.
  induction m as [|[k' v'] m IH]; simpl.
  - now rewrite String.eqb_refl.
  - destruct (String.eqb k k') eqn:E; [discriminate|].
    intros H. simpl. rewrite E. now rewrite IH.
Qed.

End RegistryFacts.

Section BrokerInvariant.
Import Broker Invariant.

Lemma registry_ok_set pid p m :
  id p = pid -> registry_ok m -> registry_ok (JsMap.set pid p m).
Proof.
  intros Hid [Hnd Hall]. split; [now apply JsMap_NoDup_set|].
  clear Hnd. induction m as [|[k' v'] m IH]; simpl.
  - constructor; [exact Hid|constructor].
  - inversion_clear Hall as [|? ? Hk Hm].
    destruct (String.eqb pid k') eqn:E.
    + apply String.eqb_eq in E. subst k'. constructor; [exact Hid|exact Hm].
    + constructor; [exact Hk|now apply IH].
Qed.

Lemma registry_ok_delete pid m :
  registry_ok m -> registry_ok (JsMap.delete pid m).
Proof.
  intros [Hnd Hall]. split; [now apply JsMap_NoDup_delete|].
  clear Hnd. induction m as [|[k' v'] m IH]; simpl; [constructor|].
  inversion_clear Hall as [|? ? Hk Hm].
  destruct (String.eqb pid k'); [exact Hm|].
  constructor; [exact Hk|now apply IH].
Qed.

Lemma registry_ok_get pid p m :
  registry_ok m -> JsMap.get pid m = Some p -> id p = pid.
Proof.
  intros [_ Hall]. induction m as [|[k' v'] m IH]; simpl; [discriminate|].
  inversion_clear Hall as [|? ? Hk Hm].
  destruct (String.eqb pid k') eqn:E.
  - apply String.eqb_eq in E. intros [= <-]. now subst.
  - now apply IH.
Qed.

Lemma registry_ok_ids m :
  registry_ok m -> map id (JsMap.values m) = map fst m.
Proof.
  intros [_ Hall]. unfold JsMap.values. rewrite map_map.
  induction Hall as [|kp m Hk _ IH]; simpl; [reflexivity|].
  now rewrite Hk, IH.
Qed.

Lemma handleLeave_ok pid s :
  registry_ok (participants s) ->
  registry_ok (participants (fst (handleLeave pid s))).
Proof.
  intros H. unfold handleLeave.
  destruct (JsMap.get pid (participants s)); simpl; [|exact H].
  now apply registry_ok_delete.
Qed.

Lemma step_ok s e :
  registry_ok (participants s) ->
  registry_ok (participants (fst (step s e))).
Proof.
  intros H.
  destruct e as [c0|now [[mid mname mpath|pid|pid|pid|]|] sender|c0]; simpl;
    try exact H.
  - now apply registry_ok_set.
  - now apply handleLeave_ok.
  - unfold handleHeartbeat.
    destruct (JsMap.get pid (participants s)) as [p|] eqn:E; simpl;
      [|exact H].
    apply registry_ok_set; [|exact H]. simpl.
    now apply registry_ok_get with (m := participants s).
  - unfold onClose. destruct (stateOf c0 s); simpl; [|exact H].
    now apply handleLeave_ok.
Qed.

Lemma run_ok es : forall s,
  registry_ok (participants s) ->
  registry_ok (participants (fst (run s es)))
  /\ forall c u, In (c, u) (snd (run s es)) ->
       exists s', registry_ok (participants s') /\ u = mkBrokerUpdate s'.
Proof.
  induction es as [|e es IH]; intros s Hs; simpl.
  - split; [exact Hs|]. intros c u [].
  - destruct (step s e) as [s1 out1] eqn:E1.
    destruct (run s1 es) as [s2 out2] eqn:E2.
    assert (H1 : registry_ok (participants s1))
      by (pose proof (step_ok s e Hs) as H; now rewrite E1 in H).
    destruct (IH s1 H1) as [H2 Hout]. rewrite E2 in H2, Hout. simpl in *.
    split; [exact H2|]. intros c u Hin. apply in_app_iff in Hin as [Hin|Hin].
    + exists s1. split; [exact H1|].
      pose proof (step_sends_registry s e c u) as H. rewrite E1 in H.
      simpl in H. now apply H.
    + exact (Hout c u Hin).
Qed.

Lemma init_ok : registry_ok (participants init).
Proof. split; constructor. Qed.

End BrokerInvariant.

Lemma after_ok (es : list Broker.Event) :
  Invariant.registry_ok (Broker.participants (Invariant.after es)).
Proof. apply (run_ok es Broker.init init_ok). Qed.

(** X1: in every session, each registry view the broker sends lists every
    participant id at most once, and its activeCount is the number of
    participants it lists. *)
Theorem X1_views_list_each_id_once (es : list Broker.Event) :
  Forall (fun cu =>
            List.NoDup (Broker.ids (snd cu))
            /\ Broker.activeCount (snd cu)
               = length (Broker.upd_participants (snd cu)))
         (snd (Broker.run Broker.init es)).
Proof.
  apply List.Forall_forall. intros [c u] Hin.
  destruct (proj2 (run_ok es Broker.init init_ok) c u Hin) as (s' & Hs' & ->).
  simpl. split.
  - unfold Broker.ids. simpl. rewrite (registry_ok_ids _ Hs'). apply Hs'.
  - unfold JsMap.size, JsMap.values. now rewrite length_map.
Qed.

(** X2: after any session, a leave for a registered id removes it: the id
    can no longer be looked up, no view of the following broadcast lists
    it, every connection gets that broadcast, and all other entries stay;
    a leave for an unknown id changes nothing and sends nothing. *)
Theorem X2_leave_removes_participant (es : list Broker.Event) (pid : string) :
  let s := Invariant.after es in
  let r := Broker.handleLeave pid s in
  JsMap.get pid (Broker.participants (fst r)) = None
  /\ Forall (fun cu => ~ In pid (Broker.ids (snd cu))) (snd r)
  /\ (forall q, q <> pid ->
        JsMap.get q (Broker.participants (fst r))
        = JsMap.get q (Broker.participants s))
  /\ (JsMap.get pid (Broker.participants s) = None -> r = (s, []))
  /\ (JsMap.get pid (Broker.participants s) <> None ->
      map fst (snd r) = map Broker.conn_id (Broker.connections s)).
Proof.
  intros s r. pose proof (after_ok es) as Hok. fold s in Hok.
  subst r. unfold Broker.handleLeave.
  destruct (JsMap.get pid (Broker.participants s)) as [p|] eqn:E; simpl.
  - assert (Hgone : JsMap.get pid (JsMap.delete pid (Broker.participants s))
                    = None) by (apply JsMap_get_delete_eq, Hok).
    split; [exact Hgone|]. split; [|split; [|split]].
    + apply List.Forall_forall. intros [c u] Hin.
      apply broadcastUpdate_inv in Hin. subst u. simpl.
      unfold Broker.ids. simpl.
      rewrite (registry_ok_ids _ (registry_ok_delete pid _ Hok)).
      now apply JsMap_get_None.
    + intros q Hq. now apply JsMap_get_delete_ne.
    + discriminate.
    + intros _. unfold Broker.broadcastUpdate. simpl.
      rewrite map_map. reflexivity.
  - split; [exact E|]. split; [constructor|]. split; [reflexivity|].
    split; [reflexivity|]. intros H. now contradiction H.
Qed.

Lemma X2_leave_removes_participant_witness :
  let s := Invariant.after Scenario.p1_joins in
  Broker.handleLeave "p9" s = (s, [])
  /\ map fst (snd (Broker.handleLeave "p1" s)) = ["c1"%string].
Proof.
  intros s.
  destruct (X2_leave_removes_participant Scenario.p1_joins "p9")
    as (_ & _ & _ & Hnone & _).
  destruct (X2_leave_removes_participant Scenario.p1_joins "p1")
    as (_ & _ & _ & _ & Hsome).
  split.
  - apply Hnone. reflexivity.
  - apply Hsome. intros H. discriminate H.
Defined.

(** X3: a heartbeat sends nothing and keeps the order of the registry and
    the connections; for a registered id only that participant's lastSeen
    changes, to the current time; for an unknown id nothing changes. *)
Theorem X3_heartbeat_refreshes_lastSeen_only
    (now : Z) (pid : string) (s : Broker.Server) :
  let r := Broker.handleHeartbeat now pid s in
  snd r = []
  /\ map fst (Broker.participants (fst r)) = map fst (Broker.participants s)
  /\ Broker.connections (fst r) = Broker.connections s
  /\ (forall q, q <> pid ->
        JsMap.get q (Broker.participants (fst r))
        = JsMap.get q (Broker.participants s))
  /\ match JsMap.get pid (Broker.participants s) with
     | Some p =>
         JsMap.get pid (Broker.participants (fst r))
         = Some (Broker.mkParticipant (Broker.id p) (Broker.playerName p)
                   (Broker.moqPath p) (Broker.joinedAt p) now)
     | None => fst r = s
     end.
Proof.
  unfold Broker.handleHeartbeat.
  destruct (JsMap.get pid (Broker.participants s)) as [p|] eqn:E; simpl.
  - split; [reflexivity|]. split; [|split; [reflexivity|split]].
    + rewrite JsMap_keys_set. unfold JsMap.has. now rewrite E.
    + intros q Hq. apply JsMap_get_set_ne. congruence.
    + apply JsMap_get_set_eq.
  - repeat split; reflexivity.
Qed.

Lemma X3_heartbeat_refreshes_lastSeen_only_witness :
  let s := Invariant.after Scenario.p1_joins in
  JsMap.get "p2" (Broker.participants
                    (fst (Broker.handleHeartbeat 5000 "p1" s)))
  = JsMap.get "p2" (Broker.participants s).
Proof.
  intros s.
  apply (proj1 (proj2 (proj2 (proj2
           (X3_heartbeat_refreshes_lastSeen_only 5000 "p1" s))))).
  intros H. discriminate H.
Defined.




(** X5: joining under a new id and then leaving restores the registry; on
    the way, the join appends the new participant at the end of the
    listed order, while a join under a known id keeps the order. *)
Theorem X5_join_then_leave_restores_registry
    (now : Z) (pid pname ppath c : string) (s : Broker.Server) :
  let joined := fst (Broker.handleJoin now pid pname ppath c s) in
  (JsMap.get pid (Broker.participants s) = None ->
     Broker.participants (fst (Broker.handleLeave pid joined))
       = Broker.participants s
     /\ map fst (Broker.participants joined)
        = map fst (Broker.participants s) ++ [pid])
  /\ (JsMap.get pid (Broker.participants s) <> None ->
      map fst (Broker.participants joined)
      = map fst (Broker.participants s)).
Proof.
  intros joined. subst joined. simpl. split.
  - intros Hnew. split.
    + unfold Broker.handleLeave. simpl. rewrite JsMap_get_set_eq. simpl.
      now apply JsMap_delete_set_new.
    + rewrite JsMap_keys_set. unfold JsMap.has. now rewrite Hnew.
  - intros Hold. rewrite JsMap_keys_set. unfold JsMap.has.
    destruct (JsMap.get pid (Broker.participants s)); [reflexivity|].
    now contradiction Hold.
Qed.

Lemma X5_join_then_leave_restores_registry_witness :
  let s := Invariant.after Scenario.p1_joins in
  let joined := fst (Broker.handleJoin 3000 "p2" "Bob" "game/r/p2" "c2" s) in
  Broker.participants (fst (Broker.handleLeave "p2" joined))
    = Broker.participants s
  /\ map fst (Broker.participants joined) = ["p1"; "p2"]%string.
Proof.
  intros s joined.
  apply (proj1 (X5_join_then_leave_restores_registry
                  3000 "p2" "Bob" "game/r/p2" "c2" s)).
  reflexivity.
Defined.

(** ** Peer session hook: sets of ids *)

Lemma setAdd_In (x y : string) (s : list string) :
  In y (PeerSession.setAdd x s) <-> y = x \/ In y s.
Proof.
  induction s as [|z s IH]; simpl; [intuition|].
  destruct (String.eqb x z) eqn:E; simpl.
  - apply String.eqb_eq in E. subst. intuition.
  - rewrite IH. intuition.
Qed.

Lemma setFrom_acc_In (y : string) (xs : list string) : forall acc,
  In y (fold_left (fun s x => PeerSession.setAdd x s) xs acc)
  <-> In y acc \/ In y xs.
Proof.
  induction xs as [|x xs IH]; intros acc; simpl; [intuition|].
  rewrite IH, setAdd_In. intuition.
Qed.

Lemma setFrom_In (y : string) (xs : list string) :
  In y (PeerSession.setFrom xs) <-> In y xs.
Proof. unfold PeerSession.setFrom. rewrite setFrom_acc_In. simpl. tauto. Qed.

Lemma setHas_In (x : string) (s : list string) :
  PeerSession.setHas x s = true <-> In x s.
Proof.
  unfold PeerSession.setHas. rewrite existsb_exists. split.
  - intros (y & Hy & E). apply String.eqb_eq in E. now subst.
  - intros H. exists x. split; [exact H|apply String.eqb_refl].
Qed.

Lemma fold_left_preserves {A B} (P : A -> Prop) (f : A -> B -> A)
    (l : list B) :
  (forall a b, In b l -> P a -> P (f a b)) ->
  forall a, P a -> P (fold_left f l a).
Proof.
  induction l as [|b l IH]; intros Hf a Ha; simpl; [exact Ha|].
  apply IH.
  - intros a' b' Hb'. apply Hf. now right.
  - apply Hf; [now left|exact Ha].
Qed.

(** ** Peer session hook: what every session keeps *)

Section SessionInvariant.
Import Broker PeerSession PeerOps.
Variable h : Hook.

Ltac session_split :=
  split; [|split; [|split; [|split]]]; simpl; auto.

Lemma emit_ok e st :
  entry_ok h e -> session_ok h st -> session_ok h (emit e st).
Proof.
  intros He (Ht & Hl & Hb & Hp & Hs). session_split.
  apply Forall_app. split; [exact Hl|]. constructor; [exact He|constructor].
Qed.

Lemma setTimeout_ok t st :
  timer_ok h t -> session_ok h st -> session_ok h (setTimeout t st).
Proof.
  intros Hok (Ht & Hl & Hb & Hp & Hs). session_split.
  - apply Forall_app. split; [exact Ht|]. constructor; [exact Hok|constructor].
  - apply Forall_app. split; [exact Hl|]. constructor; [|constructor].
    destruct Hok as (Hlt & -> & _). unfold retryDelay. simpl. lia.
Qed.

Lemma onCreateError_ok p rc st :
  id p <> playerId h -> session_ok h st ->
  session_ok h (onCreateError p rc st).
Proof.
  intros Hid Hst. unfold onCreateError.
  destruct (rc <? 3)%nat eqn:E.
  - apply Nat.ltb_lt in E. apply setTimeout_ok.
    + split; [exact E|]. split; [reflexivity|exact Hid].
    + apply emit_ok; [exact I|exact Hst].
  - apply emit_ok; [exact I|]. apply emit_ok; [exact I|exact Hst].
Qed.

Lemma createWatchBroadcast_ok p rc o st :
  (rc <= 3)%nat -> session_ok h st ->
  session_ok h (createWatchBroadcast h p rc o st).
Proof.
  intros Hrc Hst. unfold createWatchBroadcast.
  destruct (negb (moqConnection st)); [exact Hst|].
  destruct (String.eqb (id p) (playerId h)) eqn:Eid; [exact Hst|].
  apply String.eqb_neq in Eid.
  assert (Hnew : session_ok h (emit (NewWatchBroadcast (id p) rc) st))
    by (apply emit_ok; [split; assumption|exact Hst]).
  destruct o.
  - now apply onCreateError_ok.
  - destruct (String.eqb (moqPath p) (ourPath h)) eqn:Ep.
    + apply emit_ok; [exact I|exact Hst].
    + now apply onCreateError_ok.
  - destruct (String.eqb (moqPath p) (ourPath h)) eqn:Ep.
    + apply emit_ok; [exact I|exact Hst].
    + apply String.eqb_neq in Ep. apply emit_ok; [exact I|].
      destruct Hnew as (Ht & Hl & Hb & Hp & Hs).
      session_split. simpl in Hb.
      destruct (remoteBroadcasts st !! id p); [exact Hb|].
      apply map_Forall_insert_2; [split; assumption|exact Hb].
Qed.

Lemma fireTimer_ok k o st :
  session_ok h st -> session_ok h (fireTimer h k o st).
Proof.
  intros Hst. unfold fireTimer.
  destruct (timers st !! k) as [t|] eqn:Ek; [|exact Hst].
  destruct Hst as (Ht & Hl & Hb & Hp & Hs).
  destruct (Forall_lookup_1 _ _ _ _ Ht Ek) as (Hlt & _ & Hid).
  apply createWatchBroadcast_ok; [lia|].
  apply emit_ok; [exact I|].
  session_split.
  apply Forall_app. split; [now apply Forall_take|now apply Forall_drop].
Qed.

Lemma cleanupWatchBroadcast_ok pid st :
  session_ok h st -> session_ok h (cleanupWatchBroadcast pid st).
Proof.
  intros Hst. unfold cleanupWatchBroadcast.
  destruct (remoteBroadcasts st !! pid); [|exact Hst].
  destruct (emit_ok (BroadcastClose pid) st I Hst)
    as (Ht & Hl & Hb & Hp & Hs).
  session_split. now apply map_Forall_delete.
Qed.

Lemma otherParticipants_not_self data :
  Forall (fun p => id p <> playerId h) (otherParticipants h data).
Proof.
  apply List.Forall_forall. intros p Hp.
  now apply otherParticipants_spec in Hp.
Qed.

Lemma onMessage_ok oracle data st :
  session_ok h st -> session_ok h (onMessage h oracle data st).
Proof.
  intros (Ht & Hl & Hb & Hp & Hs). unfold onMessage.
  match goal with
  | |- session_ok h (mkState _ _ _ _ _ ?ids _ _) =>
      assert (Hids : ~ In (playerId h) ids)
  end.
  { rewrite setFrom_In, in_map_iff. intros (p & Hid & Hin).
    apply otherParticipants_spec in Hin. tauto. }
  match goal with
  | |- session_ok h (mkState (moqConnection ?st3) _ _ _ _ _ _ _) =>
      assert (H3 : session_ok h st3)
  end.
  { apply fold_left_preserves.
    - intros s prevId _ Hs1.
      destruct (setHas prevId _); [exact Hs1|].
      apply cleanupWatchBroadcast_ok, emit_ok; [exact I|exact Hs1].
    - apply fold_left_preserves.
      + intros s p _ Hs1.
        destruct (setHas (id p) (prevParticipants st)); [exact Hs1|].
        assert (Hj : session_ok h (emit (OnParticipantJoin (id p)) s))
          by (apply emit_ok; [exact I|exact Hs1]).
        destruct (moqConnection _ && isMoQReady _); [|exact Hj].
        apply createWatchBroadcast_ok; [lia|exact Hj].
      + session_split. apply otherParticipants_not_self. }
  destruct H3 as (Ht3 & Hl3 & Hb3 & Hp3 & _).
  session_split.
Qed.

Lemma apply_ok op st : session_ok h st -> session_ok h (apply h st op).
Proof.
  intros Hst. destruct op as [c r|oracle data|k o|pid data]; simpl.
  - destruct Hst as (Ht & Hl & Hb & Hp & Hs). session_split.
  - now apply onMessage_ok.
  - now apply fireTimer_ok.
  - destruct data; exact Hst.
Qed.

Lemma runOps_ok ops : session_ok h (runOps h ops).
Proof.
  unfold runOps. apply fold_left_preserves.
  - intros a b _. apply apply_ok.
  - split; [constructor|]. split; [constructor|].
    split; [apply map_Forall_empty|]. split; [constructor|]. intros [].
Qed.

End SessionInvariant.

Lemma attempts_entry_ok (h : PeerSession.Hook) (l : list PeerSession.Log) :
  Forall (PeerOps.entry_ok h) l ->
  PeerSession.attempts (PeerSession.playerId h) l = []
  /\ (forall pid, Forall (fun n => (n <= 3)%nat) (PeerSession.attempts pid l))
  /\ Forall (fun ms => ms = 1000 \/ ms = 2000 \/ ms = 3000)
            (PeerSession.waits l).
Proof.
  induction 1 as [|e l He _ (IH1 & IH2 & IH3)]; simpl.
  - split; [reflexivity|]. split; [intros; constructor|constructor].
  - destruct e; simpl in *;
      try (split; [exact IH1|split; [exact IH2|exact IH3]]).
    + destruct He as [Hne Hn]. split; [|split; [|exact IH3]].
      * apply String.eqb_neq in Hne. now rewrite Hne.
      * intros pid'. destruct (String.eqb pid pid'); [|apply IH2].
        constructor; [exact Hn|apply IH2].
    + split; [exact IH1|]. split; [exact IH2|]. now constructor.
Qed.

(** X6: in every session of the hook, whatever the broker announces and
    however the subscription attempts end, the local player is never
    subscribed to: no subscription is registered under its id or for its
    own path, no attempt and no retry is ever made for it, and it is
    neither in the participant list nor among the ids seen. *)
Theorem X6_session_never_watches_self
    (h : PeerSession.Hook) (ops : list PeerOps.Op) :
  let st := PeerOps.runOps h ops in
  PeerSession.remoteBroadcasts st !! PeerSession.playerId h = None
  /\ map_Forall (fun _ path => path <> PeerSession.ourPath h)
                (PeerSession.remoteBroadcasts st)
  /\ PeerSession.attempts (PeerSession.playerId h) (PeerSession.log st) = []
  /\ PeerSession.pendingFor (PeerSession.playerId h) st = []
  /\ Forall (fun p => Broker.id p <> PeerSession.playerId h)
            (PeerSession.participantsRef st)
  /\ ~ In (PeerSession.playerId h) (PeerSession.prevParticipants st).
Proof.
  intros st. destruct (runOps_ok h ops) as (Ht & Hl & Hb & Hp & Hs).
  fold st in Ht, Hl, Hb, Hp, Hs.
  split; [|split; [|split; [|split; [|split]]]]; auto.
  - destruct (PeerSession.remoteBroadcasts st !! PeerSession.playerId h)
      as [path|] eqn:E; [|reflexivity].
    destruct (Hb _ _ E) as [Hne _]. now contradiction Hne.
  - intros pid path E. now destruct (Hb _ _ E).
  - apply (attempts_entry_ok h _ Hl).
  - unfold PeerSession.pendingFor.
    induction Ht as [|t ts (_ & _ & Hid) _ IH]; simpl; [reflexivity|].
    apply String.eqb_neq in Hid. now rewrite Hid.
Qed.


(** ** Peer session hook: opening, closing and repeated announcements *)

Section HookFacts.
Import Broker PeerSession PeerOps.
Variable h : Hook.

Lemma fold_left_fixed {A B} (f : A -> B -> A) (l : list B) (a : A) :
  (forall b, In b l -> f a b = a) -> fold_left f l a = a.
Proof.
  induction l as [|b l IH]; intros Hf; simpl; [reflexivity|].
  rewrite (Hf b) by now left. apply IH. intros b' Hb'. apply Hf. now right.
Qed.

Lemma createWatchBroadcast_frame p rc o st :
  let st' := createWatchBroadcast h p rc o st in
  moqConnection st' = moqConnection st
  /\ isMoQReady st' = isMoQReady st
  /\ participantsRef st' = participantsRef st
  /\ prevParticipants st' = prevParticipants st
  /\ remoteStates st' = remoteStates st.
Proof.
  unfold createWatchBroadcast, onCreateError.
  destruct (negb (moqConnection st)); [repeat split|].
  destruct (String.eqb (id p) (playerId h)); [repeat split|].
  destruct o, (String.eqb (moqPath p) (ourPath h)), (rc <? 3)%nat;
    repeat split.
Qed.

Lemma cleanupWatchBroadcast_frame pid st :
  let st' := cleanupWatchBroadcast pid st in
  moqConnection st' = moqConnection st
  /\ isMoQReady st' = isMoQReady st
  /\ participantsRef st' = participantsRef st
  /\ prevParticipants st' = prevParticipants st
  /\ timers st' = timers st
  /\ (forall q, attempts q (log st') = attempts q (log st))
  /\ (forall q path, remoteBroadcasts st' !! q = Some path ->
                     remoteBroadcasts st !! q = Some path).
Proof.
  unfold cleanupWatchBroadcast.
  destruct (remoteBroadcasts st !! pid) eqn:E; simpl.
  - repeat split.
    + intros q. rewrite attempts_app. simpl. apply app_nil_r.
    + intros q path Hq. apply lookup_delete_Some in Hq. tauto.
  - repeat split; auto.
Qed.

(** What a broker update leaves alone, and what it sets. *)
Lemma onMessage_refs oracle data st :
  let st' := onMessage h oracle data st in
  moqConnection st' = moqConnection st
  /\ isMoQReady st' = isMoQReady st
  /\ participantsRef st' = otherParticipants h data
  /\ prevParticipants st'
     = setFrom (map id (otherParticipants h data)).
Proof.
  unfold onMessage. simpl.
  match goal with
  | |- moqConnection ?st3 = _ /\ _ =>
      assert (H3 : moqConnection st3 = moqConnection st
                   /\ isMoQReady st3 = isMoQReady st
                   /\ participantsRef st3 = otherParticipants h data)
  end.
  { apply (fold_left_preserves
             (fun s => moqConnection s = moqConnection st
                       /\ isMoQReady s = isMoQReady st
                       /\ participantsRef s = otherParticipants h data)).
    - intros s prevId _ Hs. destruct (setHas prevId _); [exact Hs|].
      destruct (cleanupWatchBroadcast_frame prevId
                  (emit (OnParticipantLeave prevId) s))
        as (-> & -> & -> & _). exact Hs.
    - apply (fold_left_preserves
             (fun s => moqConnection s = moqConnection st
                       /\ isMoQReady s = isMoQReady st
                       /\ participantsRef s = otherParticipants h data)).
      + intros s p _ Hs.
        destruct (setHas (id p) (prevParticipants st)); [exact Hs|].
        destruct (moqConnection _ && isMoQReady _); [|exact Hs].
        destruct (createWatchBroadcast_frame p 0 (oracle p)
                    (emit (OnParticipantJoin (id p)) s))
          as (-> & -> & -> & _). exact Hs.
      + repeat split. }
  destruct H3 as (H1 & H2 & H3). repeat split; assumption.
Qed.

(** An update that announces exactly the participants already seen does
    nothing but store the list again. *)
Lemma onMessage_seen oracle data st :
  prevParticipants st = setFrom (map id (otherParticipants h data)) ->
  onMessage h oracle data st
  = mkState (moqConnection st) (isMoQReady st) (remoteBroadcasts st)
      (remoteStates st) (otherParticipants h data) (prevParticipants st)
      (timers st) (log st).
Proof.
  intros Hprev. unfold onMessage.
  rewrite (fold_left_fixed _ (otherParticipants h data)).
  - rewrite fold_left_fixed.
    + simpl. now rewrite <- Hprev.
    + intros prevId Hin. rewrite <- Hprev.
      apply setHas_In in Hin. now rewrite Hin.
  - intros p Hp.
    assert (Hs : setHas (id p) (prevParticipants st) = true).
    { apply setHas_In. rewrite Hprev, setFrom_In. now apply in_map. }
    now rewrite Hs.
Qed.

Lemma onMessage_repeat oracle1 oracle2 data c r st :
  onMessage h oracle2 data (setFlags c r (onMessage h oracle1 data st))
  = setFlags c r (onMessage h oracle1 data st).
Proof.
  destruct (onMessage_refs oracle1 data st) as (_ & _ & Hp & Hs).
  remember (onMessage h oracle1 data st) as st1 eqn:E1. clear E1.
  rewrite onMessage_seen by exact Hs.
  unfold setFlags. simpl. now rewrite Hp.
Qed.

End HookFacts.

(** X8: a successful open for another player registers the subscription
    under that player's id, unless one is already registered, which is
    then kept; no other subscription and no timer is touched; and closing
    right after an open that registered a new subscription leaves the
    registered subscriptions as they were before. *)
Theorem X8_open_registers_once_and_close_undoes
    (h : PeerSession.Hook) (p : Broker.MoQParticipant) (rc : nat)
    (st : PeerSession.State) :
  PeerSession.moqConnection st = true ->
  Broker.id p <> PeerSession.playerId h ->
  Broker.moqPath p <> PeerSession.ourPath h ->
  let opened := PeerSession.createWatchBroadcast h p rc PeerSession.Opened st in
  PeerSession.remoteBroadcasts opened !! Broker.id p
    = Some (match PeerSession.remoteBroadcasts st !! Broker.id p with
            | Some b => b
            | None => Broker.moqPath p
            end)
  /\ (forall q, q <> Broker.id p ->
        PeerSession.remoteBroadcasts opened !! q
        = PeerSession.remoteBroadcasts st !! q)
  /\ PeerSession.timers opened = PeerSession.timers st
  /\ (PeerSession.remoteBroadcasts st !! Broker.id p = None ->
      PeerSession.remoteBroadcasts
        (PeerSession.cleanupWatchBroadcast (Broker.id p) opened)
      = PeerSession.remoteBroadcasts st).
Proof.
  intros Hc Hid Hpath opened. subst opened.
  unfold PeerSession.createWatchBroadcast. rewrite Hc.
  apply String.eqb_neq in Hid. apply String.eqb_neq in Hpath.
  rewrite Hid, Hpath. simpl.
  destruct (PeerSession.remoteBroadcasts st !! Broker.id p) as [b|] eqn:E.
  - simpl. split; [exact E|]. split; [reflexivity|]. split; [reflexivity|].
    discriminate.
  - simpl. split; [apply lookup_insert_eq|].
    split; [intros q Hq; now apply lookup_insert_ne|].
    split; [reflexivity|]. intros _.
    unfold PeerSession.cleanupWatchBroadcast. simpl.
    rewrite lookup_insert_eq. simpl.
    rewrite delete_insert_eq. now apply delete_id.
Qed.

Lemma X8_open_registers_once_and_close_undoes_witness :
  let opened :=
    PeerSession.createWatchBroadcast Scenario.me Scenario.bob 0
      PeerSession.Opened Scenario.ready in
  PeerSession.remoteBroadcasts opened !! "p2"%string
    = Some "game/r/p2"%string
  /\ PeerSession.remoteBroadcasts
       (PeerSession.cleanupWatchBroadcast "p2" opened)
     = PeerSession.remoteBroadcasts Scenario.ready.
Proof.
  intros opened.
  assert (H1 : Broker.id Scenario.bob <> PeerSession.playerId Scenario.me)
    by (intros H; discriminate H).
  assert (H2 : Broker.moqPath Scenario.bob
               <> PeerSession.ourPath Scenario.me)
    by (intros H; discriminate H).
  destruct (X8_open_registers_once_and_close_undoes Scenario.me Scenario.bob
              0 Scenario.ready eq_refl H1 H2) as (Ha & _ & _ & Hd).
  split; [exact Ha|]. apply Hd. reflexivity.
Defined.

(** X9: closing a subscription twice is the same as closing it once, so a
    double close registers one close at most; after a close nothing is
    registered under that id, and the subscriptions and states of all
    other ids are untouched. *)
Theorem X9_cleanup_idempotent (pid : string) (st : PeerSession.State) :
  let st' := PeerSession.cleanupWatchBroadcast pid st in
  PeerSession.cleanupWatchBroadcast pid st' = st'
  /\ PeerSession.remoteBroadcasts st' !! pid = None
  /\ (forall q, q <> pid ->
        PeerSession.remoteBroadcasts st' !! q
          = PeerSession.remoteBroadcasts st !! q
        /\ PeerSession.remoteStates st' !! q
          = PeerSession.remoteStates st !! q).
Proof.
  intros st'. subst st'. unfold PeerSession.cleanupWatchBroadcast.
  destruct (PeerSession.remoteBroadcasts st !! pid) eqn:E; simpl.
  - rewrite lookup_delete_eq. split; [reflexivity|]. split; [reflexivity|].
    intros q Hq. split; now apply lookup_delete_ne.
  - rewrite E. split; [reflexivity|]. split; [reflexivity|].
    intros q _. split; reflexivity.
Qed.

Lemma X9_cleanup_idempotent_witness :
  let opened :=
    PeerSession.createWatchBroadcast Scenario.me Scenario.bob 0
      PeerSession.Opened Scenario.ready in
  PeerSession.remoteBroadcasts
    (PeerSession.cleanupWatchBroadcast "p1" opened) !! "p2"%string
  = PeerSession.remoteBroadcasts opened !! "p2"%string.
Proof.
  intros opened.
  apply (proj2 (proj2 (X9_cleanup_idempotent "p1" opened)) "p2"%string).
  intros H. discriminate H.
Defined.

(** X10: a broker update that announces the same participants as the
    previous one changes nothing: no join or leave callback, no
    subscription attempt, no timer, whatever happened to the connection
    flags in between. *)
Theorem X10_repeated_update_is_noop
    (h : PeerSession.Hook)
    (oracle1 oracle2 : Broker.MoQParticipant -> PeerSession.Outcome)
    (data : Broker.BrokerUpdate) (c r : bool) (st : PeerSession.State) :
  let st1 := PeerSession.onMessage h oracle1 data st in
  PeerSession.onMessage h oracle2 data st1 = st1
  /\ PeerSession.onMessage h oracle2 data (PeerOps.setFlags c r st1)
     = PeerOps.setFlags c r st1.
Proof.
  intros st1. split; [|apply onMessage_repeat].
  destruct (onMessage_refs h oracle1 data st) as (_ & _ & Hp & Hs).
  fold st1 in Hp, Hs. clearbody st1.
  rewrite onMessage_seen by exact Hs.
  destruct st1. simpl in *. now subst.
Qed.

Lemma onMessage_not_ready (h : PeerSession.Hook)
    (oracle : Broker.MoQParticipant -> PeerSession.Outcome)
    (data : Broker.BrokerUpdate) (st : PeerSession.State) :
  PeerSession.moqConnection st && PeerSession.isMoQReady st = false ->
  let st1 := PeerSession.onMessage h oracle data st in
  PeerSession.timers st1 = PeerSession.timers st
  /\ (forall q, PeerSession.attempts q (PeerSession.log st1)
                = PeerSession.attempts q (PeerSession.log st))
  /\ (forall q path,
        PeerSession.remoteBroadcasts st1 !! q = Some path ->
        PeerSession.remoteBroadcasts st !! q = Some path).
Proof.
  intros Hnot st1. subst st1. unfold PeerSession.onMessage. simpl.
  match goal with
  | |- context [fold_left ?f2 ?prev (fold_left ?f1 ?others ?s0)] =>
      set (joined := fold_left f1 others s0);
      set (left := fold_left f2 prev joined)
  end.
  assert (H1 : PeerSession.moqConnection joined
                 && PeerSession.isMoQReady joined = false
               /\ PeerSession.timers joined = PeerSession.timers st
               /\ PeerSession.remoteBroadcasts joined
                  = PeerSession.remoteBroadcasts st
               /\ forall q, PeerSession.attempts q (PeerSession.log joined)
                            = PeerSession.attempts q (PeerSession.log st)).
  { subst joined.
    apply (fold_left_preserves
      (fun s => PeerSession.moqConnection s && PeerSession.isMoQReady s = false
                /\ PeerSession.timers s = PeerSession.timers st
                /\ PeerSession.remoteBroadcasts s
                   = PeerSession.remoteBroadcasts st
                /\ forall q, PeerSession.attempts q (PeerSession.log s)
                             = PeerSession.attempts q (PeerSession.log st))).
    - intros s p _ (Hf & Ht & Hb & Ha).
      destruct (PeerSession.setHas _ _); [now repeat split|].
      simpl. rewrite Hf. simpl. repeat split; auto.
      intros q. rewrite attempts_app. simpl. rewrite app_nil_r. apply Ha.
    - simpl. repeat split; auto. }
  destruct H1 as (_ & Ht1 & Hb1 & Ha1).
  subst left.
  apply (fold_left_preserves
    (fun s => PeerSession.timers s = PeerSession.timers st
              /\ (forall q, PeerSession.attempts q (PeerSession.log s)
                            = PeerSession.attempts q (PeerSession.log st))
              /\ forall q path,
                   PeerSession.remoteBroadcasts s !! q = Some path ->
                   PeerSession.remoteBroadcasts st !! q = Some path)).
  - intros s prevId _ (Ht & Ha & Hb).
    destruct (PeerSession.setHas _ _); [now repeat split|].
    destruct (cleanupWatchBroadcast_frame prevId
                (PeerSession.emit (PeerSession.OnParticipantLeave prevId) s))
      as (_ & _ & _ & _ & Ht' & Ha' & Hb').
    split; [now rewrite Ht'|]. split.
    + intros q. rewrite Ha'. simpl. rewrite attempts_app. simpl.
      rewrite app_nil_r. apply Ha.
    + intros q path Hq. apply Hb, (Hb' q path Hq).
  - split; [exact Ht1|]. split; [exact Ha1|].
    intros q path Hq. now rewrite <- Hb1.
Qed.

(** X11: while the relay connection is missing or MoQ is not ready, a
    broker update opens no subscription: no attempt is made, no retry is
    scheduled and no subscription is added; the announced participants
    are marked as seen all the same, so repeating the update once the
    connection is ready opens none either. *)
Theorem X11_not_ready_update_opens_nothing
    (h : PeerSession.Hook)
    (oracle1 oracle2 : Broker.MoQParticipant -> PeerSession.Outcome)
    (data : Broker.BrokerUpdate) (st : PeerSession.State) :
  PeerSession.moqConnection st && PeerSession.isMoQReady st = false ->
  let st1 := PeerSession.onMessage h oracle1 data st in
  PeerSession.timers st1 = PeerSession.timers st
  /\ (forall q, PeerSession.attempts q (PeerSession.log st1)
                = PeerSession.attempts q (PeerSession.log st))
  /\ (forall q path,
        PeerSession.remoteBroadcasts st1 !! q = Some path ->
        PeerSession.remoteBroadcasts st !! q = Some path)
  /\ PeerSession.onMessage h oracle2 data (PeerOps.setFlags true true st1)
     = PeerOps.setFlags true true st1.
Proof.
  intros Hnot st1.
  destruct (onMessage_not_ready h oracle1 data st Hnot) as (Ht & Ha & Hb).
  split; [exact Ht|]. split; [exact Ha|]. split; [exact Hb|].
  apply onMessage_repeat.
Qed.

Lemma X11_not_ready_update_opens_nothing_witness :
  let st1 :=
    PeerSession.onMessage Scenario.me (fun _ => PeerSession.Opened)
      (Broker.mkUpdate [Scenario.ann; Scenario.bob] 2 2)
      PeerSession.init in
  PeerSession.prevParticipants st1 = ["p2"%string]
  /\ PeerSession.attempts "p2"
       (PeerSession.log
          (PeerSession.onMessage Scenario.me (fun _ => PeerSession.Opened)
             (Broker.mkUpdate [Scenario.ann; Scenario.bob] 2 2)
             (PeerOps.setFlags true true st1))) = [].
Proof.
  intros st1. split; [reflexivity|].
  destruct (X11_not_ready_update_opens_nothing Scenario.me
              (fun _ => PeerSession.Opened) (fun _ => PeerSession.Opened)
              (Broker.mkUpdate [Scenario.ann; Scenario.bob] 2 2)
              PeerSession.init eq_refl) as (_ & Ha & _ & Hrep).
  fold st1 in Ha, Hrep. rewrite Hrep. simpl. apply (Ha "p2"%string).
Defined.

(** ** Presence store: what every session keeps *)

Section StoreInvariant.
Context {V : Type}.
Import OtherPlayers PresenceOps.
Implicit Types (ref upd : gmap string (gmap string V)).

(** The copy loop of pull-server-presence and of the MoQ effect. *)
Lemma copy_lookup ref upd pid :
  map_fold (fun pid presence r => <[pid := presence]> r) ref upd !! pid
  = match upd !! pid with
    | Some d => Some d
    | None => ref !! pid
    end.
Proof.
  revert pid.
  apply (map_fold_weak_ind
           (fun r m => forall pid,
              r !! pid
              = match m !! pid with Some d => Some d | None => ref !! pid end)).
  - intros pid. now rewrite lookup_empty.
  - intros i d m r Hi IH pid.
    destruct (decide (i = pid)) as [->|Hne].
    + now rewrite !lookup_insert_eq.
    + rewrite !lookup_insert_ne by exact Hne. apply IH.
Qed.

Lemma keys_spec upd pid : pid ∈ (map_to_list upd).*1 <-> is_Some (upd !! pid).
Proof.
  rewrite list_elem_of_fmap. split.
  - intros ([k d] & -> & Hin). apply elem_of_map_to_list in Hin. eauto.
  - intros [d Hd]. exists (pid, d). split; [reflexivity|].
    now apply elem_of_map_to_list.
Qed.

Lemma existsb_eqb_elem (pid : string) (l : list string) :
  existsb (String.eqb pid) l = true <-> pid ∈ l.
Proof.
  rewrite existsb_exists, list_elem_of_In. split.
  - intros (y & Hy & E). apply String.eqb_eq in E. now subst.
  - intros H. exists pid. split; [exact H|apply String.eqb_refl].
Qed.

Lemma filter_neq_elem (pid q : string) (l : list string) :
  q ∈ List.filter (fun i => negb (String.eqb i pid)) l
  <-> q ∈ l /\ q <> pid.
Proof.
  rewrite !list_elem_of_In, filter_In, negb_true_iff, String.eqb_neq.
  reflexivity.
Qed.

Lemma filter_neq_NoDup (pid : string) (l : list string) :
  NoDup l -> NoDup (List.filter (fun i => negb (String.eqb i pid)) l).
Proof.
  rewrite !NoDup_ListNoDup. apply List.NoDup_filter.
Qed.

Lemma messageHandler_ok selfId (m : @ServerMessage V) s :
  store_ok selfId s -> store_ok selfId (messageHandler selfId m s).
Proof.
  intros (Hnd & Hself & Hnone & Hall).
  destruct m as [users|users|pid presence|pid]; unfold store_ok; simpl.
  - split; [apply NoDup_fst_map_to_list|]. split; [|split].
    + rewrite keys_spec, lookup_delete_eq. now intros [? ?].
    + now rewrite copy_lookup, lookup_delete_eq.
    + apply Forall_forall. intros pid Hpid. apply keys_spec in Hpid.
      rewrite copy_lookup. destruct Hpid as [d ->]. eauto.
  - split; [exact Hnd|]. split; [exact Hself|]. split.
    + now rewrite sync_lookup, lookup_delete_eq.
    + eapply Forall_impl; [exact Hall|]. intros pid [d Hd].
      rewrite sync_lookup. destruct (delete selfId users !! pid); eauto.
  - destruct (String.eqb pid selfId) eqn:E; [now repeat split|].
    apply String.eqb_neq in E. simpl.
    assert (Hins : forall q, is_Some (presenceRef s !! q) ->
                     is_Some (<[pid := presence]> (presenceRef s) !! q)).
    { intros q Hq. destruct (decide (pid = q)) as [->|Hne].
      - rewrite lookup_insert_eq. eauto.
      - now rewrite lookup_insert_ne. }
    destruct (existsb (String.eqb pid) (playerIds s)) eqn:Ex.
    + split; [exact Hnd|]. split; [exact Hself|].
      split; [now rewrite lookup_insert_ne|].
      eapply Forall_impl; [exact Hall|]. exact Hins.
    + assert (Hni : pid ∉ playerIds s).
      { intros Hin. apply existsb_eqb_elem in Hin. congruence. }
      split; [|split; [|split]].
      * apply NoDup_app. split; [exact Hnd|]. split.
        -- intros q Hq Hq'. apply list_elem_of_singleton in Hq'. now subst.
        -- apply NoDup_singleton.
      * rewrite elem_of_app, list_elem_of_singleton. intros [H|H]; congruence.
      * now rewrite lookup_insert_ne.
      * apply Forall_app. split.
        -- eapply Forall_impl; [exact Hall|]. exact Hins.
        -- constructor; [|constructor]. rewrite lookup_insert_eq. eauto.
  - split; [now apply filter_neq_NoDup|]. split; [|split].
    + rewrite filter_neq_elem. tauto.
    + destruct (decide (pid = selfId)) as [->|Hne].
      * apply lookup_delete_eq.
      * now rewrite lookup_delete_ne.
    + apply Forall_forall. intros q Hq. apply filter_neq_elem in Hq as [Hq Hne].
      rewrite lookup_delete_ne by congruence.
      now apply (proj1 (Forall_forall _ _) Hall).
Qed.

End StoreInvariant.

(** X12: whatever socket messages arrive after mounting, the player list
    never contains a duplicate or the local player's id, no presence is
    ever stored for the local player, and every listed player has a
    stored presence. *)
Theorem X12_store_never_lists_self_or_duplicates {V : Type}
    (selfId : string) (messages : list (@OtherPlayers.ServerMessage V)) :
  let s := PresenceOps.runMessages selfId messages PresenceOps.emptyStore in
  NoDup (OtherPlayers.playerIds s)
  /\ (selfId ∉ OtherPlayers.playerIds s)
  /\ OtherPlayers.presenceRef s !! selfId = None
  /\ Forall (fun pid => is_Some (OtherPlayers.presenceRef s !! pid))
            (OtherPlayers.playerIds s).
Proof.
  intros s. subst s. unfold PresenceOps.runMessages.
  apply (fold_left_preserves (PresenceOps.store_ok selfId)).
  - intros s m _. apply messageHandler_ok.
  - split; [constructor|]. split; [apply not_elem_of_nil|].
    split; [apply lookup_empty|constructor].
Qed.

(** X13: a full sync (pull-server-presence) makes the player list exactly
    the ids of the message other than the local player's, each once, and
    stores the presence sent for each of them; presence stored for any
    other id, even of a player the message no longer names, is kept. *)
Theorem X13_full_sync_lists_message_ids {V : Type}
    (selfId : string) (users : gmap string (gmap string V))
    (s : @OtherPlayers.Store V) :
  let s' := OtherPlayers.messageHandler selfId
              (OtherPlayers.PullServerPresence users) s in
  NoDup (OtherPlayers.playerIds s')
  /\ (forall pid, pid ∈ OtherPlayers.playerIds s'
                  <-> pid <> selfId /\ is_Some (users !! pid))
  /\ (forall pid d, pid <> selfId -> users !! pid = Some d ->
        OtherPlayers.presenceRef s' !! pid = Some d)
  /\ (forall pid, users !! pid = None \/ pid = selfId ->
        OtherPlayers.presenceRef s' !! pid
        = OtherPlayers.presenceRef s !! pid).
Proof.
  simpl. split; [apply NoDup_fst_map_to_list|]. split; [|split].
  - intros pid. rewrite keys_spec.
    destruct (decide (selfId = pid)) as [->|Hne].
    + rewrite lookup_delete_eq. split; [now intros [? ?]|tauto].
    + rewrite lookup_delete_ne by exact Hne. split; [auto|tauto].
  - intros pid d Hne Hd.
    rewrite copy_lookup, lookup_delete_ne by congruence. now rewrite Hd.
  - intros pid Hpid. rewrite copy_lookup.
    destruct (decide (selfId = pid)) as [->|Hne].
    + now rewrite lookup_delete_eq.
    + rewrite lookup_delete_ne by exact Hne.
      destruct Hpid as [->|Heq]; [reflexivity|congruence].
Qed.

Lemma X13_full_sync_lists_message_ids_witness :
  let users : gmap string (gmap string Z) :=
    {[ "p1"%string := {[ "name"%string := 1%Z ]};
       "p2"%string := {[ "name"%string := 2%Z ]} ]} in
  let s := OtherPlayers.mkStore ["p3"%string]
             {[ "p3"%string :=
                  ({[ "name"%string := 3%Z ]} : gmap string Z) ]} in
  let s' := OtherPlayers.messageHandler "p1"
              (OtherPlayers.PullServerPresence users) s in
  OtherPlayers.presenceRef s' !! "p2"%string
    = Some {[ "name"%string := 2%Z ]}
  /\ OtherPlayers.presenceRef s' !! "p3"%string
     = OtherPlayers.presenceRef s !! "p3"%string
  /\ ("p3"%string ∉ OtherPlayers.playerIds s').
Proof.
  intros users s s'.
  destruct (X13_full_sync_lists_message_ids "p1" users s)
    as (_ & Hids & Hsent & Hkept).
  split; [|split].
  - apply Hsent; [intros H; discriminate H|reflexivity].
  - apply Hkept. left. reflexivity.
  - intros Hin. apply Hids in Hin as [_ [d Hd]]. discriminate Hd.
Defined.

(** X14: the MoQ effect makes the player list exactly the ids of the
    remote states, each once, and stores each remote state as that
    player's presence; presence stored for an id without a remote state
    is kept, so a player that left the MoQ stream is no longer listed but
    its last presence stays stored. *)
Theorem X14_moq_sync_lists_remote_states {V : Type}
    (remoteStates : gmap string (gmap string V))
    (s : @OtherPlayers.Store V) :
  let s' := PresenceOps.syncMoQ remoteStates s in
  NoDup (OtherPlayers.playerIds s')
  /\ (forall pid, pid ∈ OtherPlayers.playerIds s'
                  <-> is_Some (remoteStates !! pid))
  /\ (forall pid d, remoteStates !! pid = Some d ->
        OtherPlayers.presenceRef s' !! pid = Some d)
  /\ (forall pid, remoteStates !! pid = None ->
        OtherPlayers.presenceRef s' !! pid
        = OtherPlayers.presenceRef s !! pid).
Proof.
  simpl. split; [apply NoDup_fst_map_to_list|]. split; [|split].
  - intros pid. apply keys_spec.
  - intros pid d Hd. now rewrite copy_lookup, Hd.
  - intros pid Hd. now rewrite copy_lookup, Hd.
Qed.

Lemma X14_moq_sync_lists_remote_states_witness :
  let rs : gmap string (gmap string Z) :=
    {[ "p2"%string := {[ "name"%string := 2%Z ]} ]} in
  let s := OtherPlayers.mkStore ["p3"%string]
             {[ "p3"%string :=
                  ({[ "name"%string := 3%Z ]} : gmap string Z) ]} in
  OtherPlayers.presenceRef (PresenceOps.syncMoQ rs s) !! "p2"%string
    = Some {[ "name"%string := 2%Z ]}
  /\ OtherPlayers.presenceRef (PresenceOps.syncMoQ rs s) !! "p3"%string
     = OtherPlayers.presenceRef s !! "p3"%string.
Proof.
  intros rs s.
  destruct (X14_moq_sync_lists_remote_states rs s) as (_ & _ & Hset & Hkept).
  split; [apply Hset|apply Hkept]; reflexivity.
Defined.

(** X15: after player-removed the id is neither listed nor stored, and is
    not rendered, while every other player keeps its place and its
    presence; removing a player right after it was added as a new player
    gives back the store as it was. *)
Theorem X15_remove_forgets_player {V : Type}
    (selfId pid : string) (s : @OtherPlayers.Store V) :
  let s' := OtherPlayers.messageHandler selfId
              (OtherPlayers.PlayerRemoved pid) s in
  (pid ∉ OtherPlayers.playerIds s')
  /\ OtherPlayers.presenceRef s' !! pid = None
  /\ (forall cap, pid ∉ OtherPlayers.instantiated cap
                          (OtherPlayers.playerIds s'))
  /\ (forall q, q <> pid ->
        (q ∈ OtherPlayers.playerIds s' <-> q ∈ OtherPlayers.playerIds s)
        /\ OtherPlayers.presenceRef s' !! q
           = OtherPlayers.presenceRef s !! q)
  /\ (forall presence,
        pid <> selfId ->
        pid ∉ OtherPlayers.playerIds s ->
        OtherPlayers.presenceRef s !! pid = None ->
        OtherPlayers.messageHandler selfId (OtherPlayers.PlayerRemoved pid)
          (OtherPlayers.messageHandler selfId
             (OtherPlayers.PlayerAdded pid presence) s)
        = s).
Proof.
  simpl.
  assert (Hgone : pid ∉ List.filter (fun i => negb (String.eqb i pid))
                          (OtherPlayers.playerIds s))
    by (rewrite filter_neq_elem; tauto).
  split; [exact Hgone|]. split; [apply lookup_delete_eq|].
  split; [|split].
  - intros cap Hin. apply Hgone. rewrite instantiated_take in Hin.
    apply elem_of_take in Hin as (i & Hi & _).
    now apply list_elem_of_lookup_2 in Hi.
  - intros q Hq. split; [rewrite filter_neq_elem; tauto|].
    apply lookup_delete_ne. congruence.
  - intros presence Hne Hni Hnone.
    apply String.eqb_neq in Hne. rewrite Hne. simpl.
    assert (Hex : existsb (String.eqb pid) (OtherPlayers.playerIds s) = false).
    { destruct (existsb _ _) eqn:E; [|reflexivity].
      apply existsb_eqb_elem in E. contradiction. }
    rewrite Hex, delete_insert_eq, delete_id by exact Hnone.
    rewrite List.filter_app. simpl. rewrite String.eqb_refl. simpl.
    rewrite app_nil_r.
    replace (List.filter (fun i => negb (String.eqb i pid))
               (OtherPlayers.playerIds s)) with (OtherPlayers.playerIds s).
    + now destruct s.
    + symmetry. apply forallb_filter_id. apply forallb_forall.
      intros q Hq. apply negb_true_iff, String.eqb_neq. intros ->.
      apply Hni. now apply list_elem_of_In.
Qed.

Lemma X15_remove_forgets_player_witness :
  let s := OtherPlayers.mkStore ["p2"%string]
             {[ "p2"%string :=
                  ({[ "name"%string := 2%Z ]} : gmap string Z) ]} in
  OtherPlayers.messageHandler "p1" (OtherPlayers.PlayerRemoved "p3")
    (OtherPlayers.messageHandler "p1"
       (OtherPlayers.PlayerAdded "p3" {[ "name"%string := 3%Z ]}) s)
  = s.
Proof.
  intros s.
  apply (proj2 (proj2 (proj2 (proj2
           (X15_remove_forgets_player "p1" "p3" s))))).
  - intros H. discriminate H.
  - intros Hin. apply list_elem_of_In in Hin.
    destruct Hin as [H|[]]. discriminate H.
  - reflexivity.
Defined.

(** ** Dead reckoning: blending and extrapolation *)

Section ReckoningFacts.
Import Schema OtherPlayer Reckoning.
Local Open Scope Q_scope.





End ReckoningFacts.





Section Extrapolation.
Import Schema OtherPlayer Reckoning.
Local Open Scope Q_scope.
Variable s : PresenceType.





End Extrapolation.



Section Parked.
Import Schema OtherPlayer Reckoning.
Local Open Scope Q_scope.
Variable s : PresenceType.
Hypothesis s_zero : timestamp s == 0.

Lemma parked_frame e delta :
  parked e ->
  parked (useFrame (Some s) delta e)
  /\ exists g', playerRef (useFrame (Some s) delta e) = Some g'
       /\ quaternion g' = rot s
       /\ wheelRotation (carVectors (useFrame (Some s) delta e))
          = x2 (wheel s)
       /\ visibleSteering (carVectors (useFrame (Some s) delta e))
          = y2 (wheel s).
Proof.
  intros (Ho & Hv & (Hx & Hy & Hz) & g & Hg & Gx & Gy & Gz).
  unfold useFrame. rewrite Hg.
  rewrite ingest_same_timestamp by (rewrite Ho, s_zero; reflexivity).
  split.
  - split; [exact Ho|]. split; [exact Hv|]. simpl in *. rewrite Hv. simpl.
    split.
    + repeat split; simpl; [rewrite Hx|rewrite Hy|rewrite Hz]; ring.
    + eexists. split; [reflexivity|]. simpl.
      repeat split; simpl;
        [rewrite Hx, Gx|rewrite Hy, Gy|rewrite Hz, Gz]; ring.
  - eexists. split; [reflexivity|]. repeat split.
Qed.

Lemma parked_frames ds : forall e,
  parked e ->
  parked (frames s ds e)
  /\ (ds <> [] ->
      exists g', playerRef (frames s ds e) = Some g'
        /\ quaternion g' = rot s
        /\ wheelRotation (carVectors (frames s ds e)) = x2 (wheel s)
        /\ visibleSteering (carVectors (frames s ds e)) = y2 (wheel s)).
Proof.
  induction ds as [|d ds IH]; intros e He.
  - split; [exact He|]. intros H. now contradiction H.
  - change (frames s (d :: ds) e) with (frames s ds (useFrame (Some s) d e)).
    destruct (parked_frame e d He) as [He1 Haux].
    destruct (IH _ He1) as [Hp Hlater]. split; [exact Hp|]. intros _.
    destruct ds as [|d' ds]; [exact Haux|].
    apply Hlater. discriminate.
Qed.

Lemma init_parked : parked init.
Proof.
  split; [reflexivity|]. split; [reflexivity|].
  split; [repeat split|].
  exists initGroup. split; [reflexivity|repeat split].
Qed.

End Parked.

(** X19: the stored timestamp starts at 0, so a first sample whose
    timestamp is 0 is never taken as a waypoint: whatever position and
    velocity it carries, and for any frames, the velocity stays zero and
    the waypoint and the rendered position stay at the origin, while the
    orientation and the wheel values of the sample are applied on every
    frame. *)
Theorem X19_timestamp_zero_sample_never_ingested
    (s : Schema.PresenceType) (deltas : list Q) :
  (Schema.timestamp s == 0)%Q ->
  let e' := OtherPlayer.frames s deltas OtherPlayer.init in
  OtherPlayer.velocity (OtherPlayer.carVectors e') = OtherPlayer.zero3
  /\ Reckoning.eq3
       (OtherPlayer.positionCurrent (OtherPlayer.carVectors e'))
       OtherPlayer.zero3
  /\ (exists g, OtherPlayer.playerRef e' = Some g
         /\ Reckoning.eq3 (OtherPlayer.position g) OtherPlayer.zero3)
  /\ (deltas <> [] ->
      exists g, OtherPlayer.playerRef e' = Some g
        /\ OtherPlayer.quaternion g = Schema.rot s
        /\ OtherPlayer.wheelRotation (OtherPlayer.carVectors e')
           = Schema.x2 (Schema.wheel s)
        /\ OtherPlayer.visibleSteering (OtherPlayer.carVectors e')
           = Schema.y2 (Schema.wheel s)).
Proof.
  intros Hz e'.
  destruct (parked_frames s Hz deltas OtherPlayer.init init_parked)
    as ((_ & Hv & Hp & Hg) & Haux).
  split; [exact Hv|]. split; [exact Hp|]. split; [exact Hg|exact Haux].
Qed.

Lemma X19_timestamp_zero_sample_never_ingested_witness :
  let s := Schema.mkPresence "Ann" (Schema.mkVec3 4 0 0)
             (Schema.mkQuat 0 1 0 0) (Schema.mkVec2 3 5)
             (Schema.mkVec3 2 0 1) 0 in
  exists g,
    OtherPlayer.playerRef
      (OtherPlayer.frames s [1 # 60; 1 # 60] OtherPlayer.init) = Some g
    /\ OtherPlayer.quaternion g = Schema.mkQuat 0 1 0 0.
Proof.
  intros s.
  assert (Hz : (Schema.timestamp s == 0)%Q) by reflexivity.
  assert (Hne : [1 # 60; 1 # 60]%Q <> []) by discriminate.
  destruct (proj2 (proj2 (proj2
              (X19_timestamp_zero_sample_never_ingested s
                 [1 # 60; 1 # 60]%Q Hz))) Hne) as (g & Hg & Hq & _).
  exists g. split; [exact Hg|exact Hq].
Defined.

(** ** Debug overlay *)

Section DebugFacts.
Context {D : Type}.
Import DebugOverlay.

Lemma take_cons_take {A} (n : nat) (a : A) (l : list A) :
  take n (a :: take n l) = take n (a :: l).
Proof.
  destruct n as [|n]; [reflexivity|]. simpl. f_equal.
  rewrite take_take. f_equal. lia.
Qed.

(** The buffer holds the latest events, newest first, numbered in order
    of arrival. *)
Lemma runDebug_spec (max : nat) (evs : list (@DebugEvent D)) :
  countRef (runDebug max evs) = length evs
  /\ logs (runDebug max evs)
     = take max (rev (imap (fun i ev => mkLogEntry i ev.1.1 ev.1.2 ev.2) evs)).
Proof.
  unfold runDebug. induction evs as [|ev evs [IHc IHl]] using rev_ind.
  - split; [reflexivity|]. simpl. now rewrite take_nil.
  - rewrite fold_left_app. simpl.
    destruct ev as [[now d] sz]. unfold onDebugEvent at 1. simpl.
    split; [rewrite length_app, IHc; simpl; lia|].
    rewrite IHl, IHc, take_cons_take, imap_app, rev_app_distr. simpl.
    now rewrite Nat.add_0_r.
Qed.

Lemma imap_ids (evs : list (@DebugEvent D)) : forall k,
  map id (imap (fun i ev => mkLogEntry (k + i) ev.1.1 ev.1.2 ev.2) evs)
  = seq k (length evs).
Proof.
  induction evs as [|ev evs IH]; intros k; [reflexivity|].
  rewrite imap_cons. simpl. rewrite Nat.add_0_r. f_equal.
  rewrite <- (IH (S k)). f_equal. apply imap_ext.
  intros i x _. unfold compose. f_equal. lia.
Qed.

End DebugFacts.

(** X20: after any sequence of debug events a log of the overlay holds the
    latest events only, newest first and never more than its maximum; the
    entries carry the arrival numbers of those events, so no two entries
    shown share a key. *)
Theorem X20_debug_log_keeps_latest {D : Type}
    (max : nat) (evs : list (@DebugOverlay.DebugEvent D)) :
  let b := DebugOverlay.runDebug max evs in
  length (DebugOverlay.logs b) = Nat.min max (length evs)
  /\ map DebugOverlay.id (DebugOverlay.logs b)
     = take max (rev (seq 0 (length evs)))
  /\ map DebugOverlay.data (DebugOverlay.logs b)
     = take max (rev (map (fun ev => ev.1.2) evs))
  /\ List.NoDup (map DebugOverlay.id (DebugOverlay.logs b))
  /\ DebugOverlay.countRef b = length evs.
Proof.
  intros b. destruct (runDebug_spec max evs) as [Hc Hl]. fold b in Hc, Hl.
  assert (Hid : map DebugOverlay.id (DebugOverlay.logs b)
                = take max (rev (seq 0 (length evs)))).
  { rewrite Hl, <- firstn_map, map_rev. do 2 f_equal.
    apply (imap_ids evs 0). }
  split; [|split; [exact Hid|split; [|split; [|exact Hc]]]].
  - rewrite Hl, length_take, length_rev, length_imap. reflexivity.
  - rewrite Hl, <- firstn_map, map_rev. do 2 f_equal.
    clear. induction evs as [|ev evs IH] using rev_ind; [reflexivity|].
    rewrite imap_app, !map_app, IH. reflexivity.
  - rewrite Hid. apply NoDup_ListNoDup.
    apply (sublist_NoDup _ (rev (seq 0 (length evs)))); [|apply sublist_take].
    apply NoDup_ListNoDup, List.NoDup_rev, List.seq_NoDup.
Qed.

(** ** Reconnect backoff: closed form *)

Lemma failures_closed_form (p : Connection.ConnectionProps) (n : nat) :
  Connection.delay p <= Connection.maxDelay p ->
  0 <= Connection.maxDelay p ->
  Connection.currentDelay (Connection.failures p n (Connection.create p))
  = Z.min (Connection.delay p * 2 ^ Z.of_nat n) (Connection.maxDelay p).
Proof.
  intros Hle Hmax. induction n as [|n IH].
  - simpl. lia.
  - cbn [Connection.failures Connection.onFailure Connection.currentDelay].
    rewrite IH, Nat2Z.inj_succ, Z.pow_succ_r by lia.
    set (q := Connection.delay p * 2 ^ Z.of_nat n).
    replace (Connection.delay p * (2 * 2 ^ Z.of_nat n)) with (2 * q)
      by (unfold q; ring).
    lia.
Qed.

(** X21: under the documented backoff rule, with an initial delay of at
    least 1 ms and no more than maxDelay, the delay after n consecutive
    failures is min(delay * 2^n, maxDelay); it reaches maxDelay after
    finitely many failures and stays there for as long as the failures
    go on. *)
Theorem X21_backoff_reaches_cap_and_stays
    (p : Connection.ConnectionProps) :
  1 <= Connection.delay p ->
  Connection.delay p <= Connection.maxDelay p ->
  (forall n,
     Connection.currentDelay (Connection.failures p n (Connection.create p))
     = Z.min (Connection.delay p * 2 ^ Z.of_nat n) (Connection.maxDelay p))
  /\ forall n,
       (Z.to_nat (Z.log2_up (Connection.maxDelay p)) <= n)%nat ->
       Connection.currentDelay
         (Connection.failures p n (Connection.create p))
       = Connection.maxDelay p.
Proof.
  intros H1 Hle. split.
  - intros n. apply failures_closed_form; lia.
  - intros n Hn. rewrite failures_closed_form by lia.
    apply Z.min_r.
    assert (Hcap : Connection.maxDelay p
                   <= 2 ^ Z.log2_up (Connection.maxDelay p)).
    { destruct (Z.eq_dec (Connection.maxDelay p) 1) as [->|Hne];
        [intros H; discriminate H|].
      apply Z.log2_up_spec. lia. }
    assert (Hpow : 2 ^ Z.log2_up (Connection.maxDelay p) <= 2 ^ Z.of_nat n).
    { apply Z.pow_le_mono_r; [lia|].
      pose proof (Z.log2_up_nonneg (Connection.maxDelay p)). lia. }
    assert (Hpos : 0 < 2 ^ Z.of_nat n) by (apply Z.pow_pos_nonneg; lia).
    nia.
Qed.

Lemma X21_backoff_reaches_cap_and_stays_witness :
  Connection.currentDelay
    (Connection.failures Connection.defaults 3
       (Connection.create Connection.defaults)) = 8000
  /\ Connection.currentDelay
       (Connection.failures Connection.defaults 40
          (Connection.create Connection.defaults)) = 30000.
Proof.
  assert (H1 : 1 <= Connection.delay Connection.defaults) by (simpl; lia).
  assert (H2 : Connection.delay Connection.defaults
               <= Connection.maxDelay Connection.defaults) by (simpl; lia).
  destruct (X21_backoff_reaches_cap_and_stays Connection.defaults H1 H2)
    as [Hform Hcap].
  split.
  - rewrite Hform. reflexivity.
  - apply Hcap. vm_compute. lia.
Defined.
